(* ===================================================================== *)
(* Queue group manager (remoteMongoQueueGroup): registry, Get/Put, Prune  *)
(* and construction, embedded as state-passing functions.                 *)
(*                                                                       *)
(* Modelling conventions                                                  *)
(*  - Go strings are byte strings: Stdlib [string].                       *)
(*  - time.Time and time.Duration are integers (nanoseconds) in Z; one    *)
(*    operation reads one clock value.                                    *)
(*  - map[string]T is a [gmap string T].                                  *)
(*  - Go's (value, error) results are pairs of options.                   *)
(*  - Every call that leaves the process (store, queue, constructor) is   *)
(*    appended to the world's event log, oldest first.                    *)
(*  - The ambient context is live for the length of an operation, so the  *)
(*    select statements of Prune take their send branch (both channels    *)
(*    are buffered to the number of senders).                             *)
(* ===================================================================== *)

From Stdlib Require Import ZArith String Ascii List Bool Lia.
From stdpp Require Import gmap strings list fin_maps.

Local Open Scope string_scope.
Local Open Scope Z_scope.

(* --------------------------------------------------------------------- *)
(* Package strings                                                        *)
(* --------------------------------------------------------------------- *)

Module strings.

(* s[n:] *)
Definition slice_from (n : nat) (s : string) : string :=
  String.substring n (String.length s - n) s.

(* s[:n] *)
Definition slice_to (n : nat) (s : string) : string :=
  String.substring 0 n s.

Definition HasPrefix (s prefix : string) : bool :=
  (String.length prefix <=? String.length s)%nat
  && String.eqb (slice_to (String.length prefix) s) prefix.

Definition HasSuffix (s suffix : string) : bool :=
  (String.length suffix <=? String.length s)%nat
  && String.eqb (slice_from (String.length s - String.length suffix) s) suffix.

Definition TrimPrefix (s prefix : string) : string :=
  if HasPrefix s prefix then slice_from (String.length prefix) s else s.

Definition TrimSuffix (s suffix : string) : string :=
  if HasSuffix s suffix
  then slice_to (String.length s - String.length suffix) s
  else s.

End strings.

(* --------------------------------------------------------------------- *)
(* Queue naming                                                           *)
(* --------------------------------------------------------------------- *)

Section Naming.

(* The suffix every queue collection carries. *)
Variable jobsSuffix : string.

(** Modelled from the spec: addJobsSuffix is not part of the sources at
    hand; the naming convention "backing collection name = prefix +
    logical_id + queue-suffix" makes it the function that appends the
    queue suffix. *)
Definition addJobsSuffix (s : string) : string := s ++ jobsSuffix.

(** Modelled from the spec: trimJobsSuffix is not part of the sources at
    hand; "logical id recovery = strip prefix then strip queue-suffix"
    makes it the function that strips one trailing queue suffix. *)
Definition trimJobsSuffix (s : string) : string :=
  strings.TrimSuffix s jobsSuffix.

Definition collectionFromID (prefix id : string) : string :=
  addJobsSuffix (prefix ++ id).

Definition idFromCollection (prefix collection : string) : string :=
  trimJobsSuffix (strings.TrimPrefix collection prefix).

End Naming.

(* --------------------------------------------------------------------- *)
(* Errors                                                                 *)
(* --------------------------------------------------------------------- *)

#[local] Set Warnings "-register-all".

Inductive error : Type :=
| New (msg : string)                  (* errors.New(msg) *)
| Wrap (err : error) (msg : string)   (* errors.Wrap(err, msg) *)
| External (op : string)              (* an error value made outside this package *)
| Multi (errs : list error).          (* what a catcher resolves to *)

(* A Go result pair (value, error) of which exactly one side is set. *)
Inductive result (A : Type) : Type :=
| Ok (a : A)
| Err (err : error).
Arguments Ok {A} a.
Arguments Err {A} err.

(* grip's basic catcher: errors in the order they were added. *)
Definition Catcher := list error.

Definition Add (err : error) (catcher : Catcher) : Catcher := (catcher ++ [err])%list.

(* nil when nothing was added (HasErrors is false), the combined error
   otherwise. *)
Definition Resolve (catcher : Catcher) : option error :=
  match catcher with [] => None | _ :: _ => Some (Multi catcher) end.

(* --------------------------------------------------------------------- *)
(* The world outside the manager                                          *)
(* --------------------------------------------------------------------- *)

(* The status fields of a job document that Prune queries. *)
Record Doc : Type := { completed : bool; in_prog : bool; mod_ts : Z }.

(* The two filters Prune hands to CountDocuments. *)
Inductive Filter : Type :=
| RecentlyCompleted (since : Z)
    (* {status.completed: true, status.in_prog: false, status.mod_ts: {$gte: since}} *)
| NotCompleted.
    (* {status.completed: false} *)

Definition matches (f : Filter) (d : Doc) : bool :=
  match f with
  | RecentlyCompleted since =>
      completed d && negb (in_prog d) && (since <=? mod_ts d)
  | NotCompleted => negb (completed d)
  end.

(* A queue is known to the manager by its identity and by what its
   SetDriver and Start methods answer. *)
Record Queue : Type := {
  handle : nat;
  SetDriver : option error;
  Start : option error
}.

(* Where reading the collection listing can go wrong. *)
Inductive ListFailure : Type :=
| ListCollectionsFails | DecodeFails | CursorErrFails | CursorCloseFails.

Inductive Event : Type :=
| EvListCollections (pattern : string)
| EvCountDocuments (coll : string) (f : Filter)
| EvDrop (coll : string)
| EvConstructor
| EvOpenNewMongoDriver (coll : string)
| EvSetDriver (q : Queue)
| EvStart (q : Queue)
| EvRunnerClose (q : Queue)
| EvPrunerLoop (frequency : Z).

Record World : Type := {
  clock : Z;                                   (* time.Now() *)
  collections : list (string * list Doc);      (* the database, in listing order *)
  regexMatch : string -> string -> bool;       (* the server's $regex: pattern, name *)
  listFailure : option ListFailure;
  countFailure : string -> Filter -> option error;
  dropFailure : string -> option error;
  openDriverFailure : string -> option error;  (* OpenNewMongoDriver, by collection *)
  constructed : nat;                           (* constructor calls so far *)
  log : list Event                             (* calls made so far, oldest first *)
}.

Definition set_log (l : list Event) (w : World) : World :=
  {| clock := clock w; collections := collections w; regexMatch := regexMatch w;
     listFailure := listFailure w; countFailure := countFailure w;
     dropFailure := dropFailure w; openDriverFailure := openDriverFailure w;
     constructed := constructed w; log := l |}.

Definition set_collections (cs : list (string * list Doc)) (w : World) : World :=
  {| clock := clock w; collections := cs; regexMatch := regexMatch w;
     listFailure := listFailure w; countFailure := countFailure w;
     dropFailure := dropFailure w; openDriverFailure := openDriverFailure w;
     constructed := constructed w; log := log w |}.

Definition set_constructed (n : nat) (w : World) : World :=
  {| clock := clock w; collections := collections w; regexMatch := regexMatch w;
     listFailure := listFailure w; countFailure := countFailure w;
     dropFailure := dropFailure w; openDriverFailure := openDriverFailure w;
     constructed := n; log := log w |}.

(* Computations that act on the world. *)
Definition M (A : Type) : Type := World -> A * World.

Definition ret {A : Type} (a : A) : M A := fun w => (a, w).

Definition bind {A B : Type} (m : M A) (k : A -> M B) : M B :=
  fun w => let (a, w') := m w in k a w'.

Notation "'do' x <- m ; k" := (bind m (fun x => k))
  (at level 10, x pattern, m at level 100, k at level 200).
Notation "m ;; k" := (bind m (fun _ => k))
  (at level 100, k at level 200, right associativity).

Definition emit (e : Event) : M unit := fun w => (tt, set_log (log w ++ [e])%list w).

Definition Now : M Z := fun w => (clock w, w).

(* The documents of a collection; a collection that does not exist holds none. *)
Definition documents (coll : string) (cs : list (string * list Doc)) : list Doc :=
  match List.find (fun p => String.eqb (fst p) coll) cs with
  | Some p => snd p
  | None => []
  end.

Definition exists_collection (coll : string) (cs : list (string * list Doc)) : bool :=
  List.existsb (fun p => String.eqb (fst p) coll) cs.

Definition CountDocuments (coll : string) (f : Filter) : M (result Z) :=
  emit (EvCountDocuments coll f) ;;
  fun w =>
    match countFailure w coll f with
    | Some err => (Err err, w)
    | None =>
        (Ok (Z.of_nat (List.length (List.filter (matches f) (documents coll (collections w))))), w)
    end.

(* db.Collection(coll).Drop() on the list of collections. *)
Definition without (coll : string) (cs : list (string * list Doc)) :=
  List.filter (fun p => negb (String.eqb (fst p) coll)) cs.

Definition Drop (coll : string) : M (option error) :=
  emit (EvDrop coll) ;;
  fun w =>
    match dropFailure w coll with
    | Some err => (Some err, w)
    | None =>
        (None, set_collections (without coll (collections w)) w)
    end.

(* --------------------------------------------------------------------- *)
(* The manager                                                            *)
(* --------------------------------------------------------------------- *)

(* A constructor may answer differently from call to call: it is indexed by
   the number of calls made before. *)
Definition RemoteConstructor : Type := nat -> result Queue.

Record MongoDBOptions : Type := { DB : string; URI : string }.

Record RemoteQueueGroupOptions : Type := {
  Constructor : RemoteConstructor;
  Prefix : string;
  PruneFrequency : Z;
  TTL : Z
}.

Record remoteMongoQueueGroup : Type := {
  constructor : RemoteConstructor;
  mongooptions : MongoDBOptions;
  prefix : string;
  pruneFrequency : Z;
  queues : gmap string Queue;
  ttl : Z;
  ttlMap : gmap string Z
}.

Definition set_maps (qs : gmap string Queue) (ts : gmap string Z)
    (g : remoteMongoQueueGroup) : remoteMongoQueueGroup :=
  {| constructor := constructor g; mongooptions := mongooptions g;
     prefix := prefix g; pruneFrequency := pruneFrequency g;
     queues := qs; ttl := ttl g; ttlMap := ts |}.

(* g.ttlMap[id] = t *)
Definition touch (id : string) (t : Z) (g : remoteMongoQueueGroup) :=
  set_maps (queues g) (<[id := t]> (ttlMap g)) g.

(* g.queues[id] = q; g.ttlMap[id] = t *)
Definition register (id : string) (q : Queue) (t : Z) (g : remoteMongoQueueGroup) :=
  set_maps (<[id := q]> (queues g)) (<[id := t]> (ttlMap g)) g.

(* delete(g.queues, id); delete(g.ttlMap, id) *)
Definition evict (id : string) (g : remoteMongoQueueGroup) :=
  set_maps (delete id (queues g)) (delete id (ttlMap g)) g.

(* for id := range ch { delete(g.queues, id); delete(g.ttlMap, id) } *)
Definition evictAll (ch : list string) (g : remoteMongoQueueGroup) :=
  List.fold_left (fun g id => evict id g) ch g.

Section Group.

Variable jobsSuffix : string.

(* runtime.NumCPU() *)
Variable NumCPU : nat.

(* opts.validate(), which the sources at hand do not include. *)
Variable validate : RemoteQueueGroupOptions -> option error.

Definition g_collectionFromID (g : remoteMongoQueueGroup) (id : string) : string :=
  collectionFromID jobsSuffix (prefix g) id.

Definition g_idFromCollection (g : remoteMongoQueueGroup) (collection : string) : string :=
  idFromCollection jobsSuffix (prefix g) collection.

Definition startProcessingRemoteQueue (g : remoteMongoQueueGroup) (coll : string)
  : M (result Queue) :=
  let coll := trimJobsSuffix jobsSuffix coll in
  do r <- (emit EvConstructor ;;
           fun w => (constructor g (constructed w), set_constructed (S (constructed w)) w));
  match r with
  | Err err => ret (Err (Wrap err "problem starting queue"))
  | Ok q =>
      do d <- (emit (EvOpenNewMongoDriver coll) ;; fun w => (openDriverFailure w coll, w));
      match d with
      | Some err => ret (Err (Wrap err "problem opening driver"))
      | None =>
          emit (EvSetDriver q) ;;
          match SetDriver q with
          | Some err => ret (Err (Wrap err "problem setting driver"))
          | None =>
              emit (EvStart q) ;;
              match Start q with
              | Some err => ret (Err (Wrap err "problem starting queue"))
              | None => ret (Ok q)
              end
          end
      end
  end.

Definition getExistingCollections (prefix : string) : M (result (list string)) :=
  let pattern := "^" ++ prefix ++ ".*" in
  emit (EvListCollections pattern) ;;
  fun w =>
    match listFailure w with
    | Some ListCollectionsFails =>
        (Err (Wrap (External "ListCollections") "problem calling listCollections"), w)
    | Some DecodeFails =>
        (Err (Wrap (External "Decode") "problem parsing listCollections output"), w)
    | Some CursorErrFails =>
        (Err (Wrap (External "Err") "problem iterating over list collections cursor"), w)
    | Some CursorCloseFails =>
        (Err (Wrap (External "Close") "problem closing cursor"), w)
    | None =>
        (Ok (List.filter (regexMatch w pattern) (List.map fst (collections w))), w)
    end.

Definition Get (g : remoteMongoQueueGroup) (id : string)
  : M (result Queue * remoteMongoQueueGroup) :=
  match queues g !! id with
  | Some queue => do now <- Now; ret (Ok queue, touch id now g)
  | None =>
      (* Check again in case the map was modified after we released the read lock. *)
      match queues g !! id with
      | Some queue => do now <- Now; ret (Ok queue, touch id now g)
      | None =>
          do r <- startProcessingRemoteQueue g (g_collectionFromID g id);
          match r with
          | Err err => ret (Err (Wrap err "problem starting queue"), g)
          | Ok queue => do now <- Now; ret (Ok queue, register id queue now g)
          end
      end
  end.

Definition Put (g : remoteMongoQueueGroup) (id : string) (queue : Queue)
  : M (option error * remoteMongoQueueGroup) :=
  match queues g !! id with
  | Some _ => ret (Some (New "a queue already exists at this index"), g)
  | None =>
      (* Check again in case the map was modified after we released the read lock. *)
      match queues g !! id with
      | Some _ => ret (Some (New "a queue already exists at this index"), g)
      | None => do now <- Now; ret (None, register id queue now g)
      end
  end.

(* The test that puts a listed collection on collsToCheck:
   t, ok := g.ttlMap[id]; !ok || ok && time.Since(t) > g.ttl *)
Definition needsCheck (g : remoteMongoQueueGroup) (now : Z) (coll : string) : bool :=
  match ttlMap g !! g_idFromCollection g coll with
  | None => true
  | Some t => ttl g <? now - t
  end.

(* What the goroutines of the first pass share. *)
Record PruneState : Type := {
  catcher : Catcher;
  collsDeleteChan : list string   (* ids sent so far, oldest first *)
}.

Definition catch (err : error) (st : PruneState) : PruneState :=
  {| catcher := Add err (catcher st); collsDeleteChan := collsDeleteChan st |}.

Definition send (id : string) (st : PruneState) : PruneState :=
  {| catcher := catcher st; collsDeleteChan := (collsDeleteChan st ++ [id])%list |}.

(* How the body of a goroutine's receive loop ends for one collection:
   by falling through to the next receive, or by returning. *)
Inductive Flow : Type := NextReceive | Return.

(* The body of `for nextColl := range collsDropChan`. *)
Definition pruneCollection (g : remoteMongoQueueGroup) (nextColl : string)
    (st : PruneState) : M (Flow * PruneState) :=
  do now <- Now;
  do r <- CountDocuments nextColl (RecentlyCompleted (now - ttl g));
  match r with
  | Err err => ret (Return, catch err st)
  | Ok count =>
      if 0 <? count then ret (Return, st) else
      do r <- CountDocuments nextColl NotCompleted;
      match r with
      | Err err => ret (Return, catch err st)
      | Ok count =>
          if 0 <? count then ret (Return, st) else
          do st <- match queues g !! g_idFromCollection g nextColl with
                   | Some queue =>
                       emit (EvRunnerClose queue) ;;
                       ret (send (g_idFromCollection g nextColl) st)
                   | None => ret st
                   end;
          do d <- Drop nextColl;
          match d with
          | Some err => ret (NextReceive, catch err st)
          | None => ret (NextReceive, st)
          end
      end
  end.

(* The pool of goroutines that drain collsDropChan. The channel hands the
   collections out in order, each to one goroutine. A goroutine whose body
   returns is gone, so [workers] counts those still receiving; what is left
   on the channel once none is stays there. The bodies for different
   collections are run one after the other, in channel order. *)
Fixpoint pruneWorkers (g : remoteMongoQueueGroup) (workers : nat)
    (collsDropChan : list string) (st : PruneState) : M PruneState :=
  match collsDropChan with
  | [] => ret st
  | nextColl :: rest =>
      match workers with
      | O => ret st
      | S fewer =>
          do r <- pruneCollection g nextColl st;
          match r with
          | (NextReceive, st) => pruneWorkers g workers rest st
          | (Return, st) => pruneWorkers g fewer rest st
          end
      end
  end.

(* The inner loop of the second pass: does some checked collection carry
   this id? *)
Definition checked (g : remoteMongoQueueGroup) (collsToCheck : list string)
    (id : string) : bool :=
  List.existsb (fun coll => String.eqb id (g_idFromCollection g coll)) collsToCheck.

(* The registered queues the second pass closes. Go ranges over the map in
   no fixed order and closes the Runners side by side; the key order of the
   map stands for that order. *)
Definition unchecked (g : remoteMongoQueueGroup) (collsToCheck : list string)
  : list (string * Queue) :=
  List.filter (fun p => negb (checked g collsToCheck (fst p)))
              (map_to_list (queues g)).

Fixpoint closeRunners (qs : list (string * Queue)) : M unit :=
  match qs with
  | [] => ret tt
  | (_, qu) :: rest => emit (EvRunnerClose qu) ;; closeRunners rest
  end.

Definition Prune (g : remoteMongoQueueGroup) : M (option error * remoteMongoQueueGroup) :=
  do r <- getExistingCollections (prefix g);
  match r with
  | Err err => ret (Some (Wrap err "problem getting collections"), g)
  | Ok colls =>
      do now <- Now;
      let collsToCheck := List.filter (needsCheck g now) colls in
      do st <- pruneWorkers g NumCPU collsToCheck {| catcher := []; collsDeleteChan := [] |};
      let g := evictAll (collsDeleteChan st) g in
      (* Another prune may have gotten to the collection first, so we
         should close the queue. *)
      let queuesDelete := unchecked g collsToCheck in
      closeRunners queuesDelete ;;
      let g := evictAll (List.map fst queuesDelete) g in
      ret (Resolve (catcher st), g)
  end.

(* The loop over the collections found at construction. *)
Fixpoint startExisting (g : remoteMongoQueueGroup) (colls : list string)
    (catcher : Catcher) : M (Catcher * remoteMongoQueueGroup) :=
  match colls with
  | [] => ret (catcher, g)
  | coll :: rest =>
      do r <- startProcessingRemoteQueue g coll;
      match r with
      | Err err =>
          startExisting g rest (Add (Wrap err "problem starting queue") catcher)
      | Ok q =>
          do now <- Now;
          startExisting (register (g_idFromCollection g coll) q now g) rest catcher
      end
  end.

Definition pruning (opts : RemoteQueueGroupOptions) : bool :=
  (0 <? PruneFrequency opts) && (0 <? TTL opts).

Definition NewMongoRemoteQueueGroup (opts : RemoteQueueGroupOptions)
    (mdbopts : MongoDBOptions) : M (result remoteMongoQueueGroup) :=
  match validate opts with
  | Some err => ret (Err (Wrap err "invalid remote queue options"))
  | None =>
      if String.eqb (DB mdbopts) "" then ret (Err (New "no database name specified")) else
      if String.eqb (URI mdbopts) "" then ret (Err (New "no mongodb uri specified")) else
      let g := {| constructor := Constructor opts; mongooptions := mdbopts;
                  prefix := Prefix opts; pruneFrequency := PruneFrequency opts;
                  queues := ∅; ttl := TTL opts; ttlMap := ∅ |} in
      do p <- (if pruning opts then Prune g else ret (None, g));
      match p with
      | (Some err, _) => ret (Err (Wrap err "problem pruning queue"))
      | (None, g) =>
          do r <- getExistingCollections (prefix g);
          match r with
          | Err err => ret (Err (Wrap err "problem getting existing collections"))
          | Ok colls =>
              do s <- startExisting g colls [];
              let (catcher, g) := s in
              (* if catcher.HasErrors() { return nil, catcher.Resolve() } *)
              match Resolve catcher with
              | Some err => ret (Err err)
              | None =>
                  (if pruning opts then emit (EvPrunerLoop (PruneFrequency opts)) else ret tt) ;;
                  ret (Ok g)
              end
          end
      end
  end.

End Group.

(* --------------------------------------------------------------------- *)
(* Observing a run                                                        *)
(* --------------------------------------------------------------------- *)

(* The calls made between world [w] and a later world [w']. *)
Definition since (w w' : World) : list Event :=
  List.skipn (List.length (log w)) (log w').

Definition countOf (f : Filter) (ds : list Doc) : Z :=
  Z.of_nat (List.length (List.filter (matches f) ds)).

(* The registry and the last-access map know the same ids. *)
Definition same_ids (g : remoteMongoQueueGroup) : Prop :=
  dom (queues g) = dom (ttlMap g).

(* What no operation of the manager changes: the clock reading and the
   answers the store and the driver factory have in stock. *)
Definition same_oracles (w w' : World) : Prop :=
  clock w' = clock w
  /\ regexMatch w' = regexMatch w
  /\ listFailure w' = listFailure w
  /\ countFailure w' = countFailure w
  /\ dropFailure w' = dropFailure w
  /\ openDriverFailure w' = openDriverFailure w.

(* Some step of starting a queue on collection [coll] fails in world [w]. *)
Definition start_fails (g : remoteMongoQueueGroup) (coll : string) (w : World) : Prop :=
  match constructor g (constructed w) with
  | Err _ => True
  | Ok q =>
      is_Some (openDriverFailure w coll) \/ is_Some (SetDriver q) \/ is_Some (Start q)
  end.

(* What CountDocuments answers in world [w]. *)
Definition count (w : World) (coll : string) (f : Filter) : result Z :=
  fst (CountDocuments coll f w).

(* The filter of Prune's first count in world [w]. *)
Definition recent (g : remoteMongoQueueGroup) (w : World) : Filter :=
  RecentlyCompleted (clock w - ttl g).

(* Both counts of Prune answer zero. *)
Definition idle (g : remoteMongoQueueGroup) (w : World) (coll : string) : Prop :=
  count w coll (recent g w) = Ok 0 /\ count w coll NotCompleted = Ok 0.

(* The events a goroutine can log while it handles collection [coll]. *)
Definition about (coll : string) (e : Event) : Prop :=
  match e with
  | EvCountDocuments c _ => c = coll
  | EvDrop c => c = coll
  | EvRunnerClose _ => True
  | _ => False
  end.

(* World [w] of a pass that started in world [w0]: the oracles are those of
   [w0], and a collection holds what it held in [w0] unless it was idle
   there and is now gone. *)
Definition kept (g : remoteMongoQueueGroup) (w0 w : World) : Prop :=
  same_oracles w0 w
  /\ forall c,
       documents c (collections w) = documents c (collections w0)
       \/ (documents c (collections w) = [] /\ idle g w0 c).

(* The collections the store lists for a manager, and those of them a pass
   puts on collsToCheck. *)
Definition listed (g : remoteMongoQueueGroup) (w : World) : list string :=
  List.filter (regexMatch w ("^" ++ prefix g ++ ".*")) (List.map fst (collections w)).

Definition collsToCheck (jobsSuffix : string) (g : remoteMongoQueueGroup) (w : World)
  : list string :=
  List.filter (needsCheck jobsSuffix g (clock w)) (listed g w).

(* An event of the first pass about a collection on the list [cs]. *)
Definition worker_event (jobsSuffix : string) (g : remoteMongoQueueGroup)
    (cs : list string) (e : Event) : Prop :=
  exists c, In c cs
    /\ ((exists f, e = EvCountDocuments c f)
        \/ e = EvDrop c
        \/ (exists q, e = EvRunnerClose q
              /\ queues g !! g_idFromCollection jobsSuffix g c = Some q)).

(* The calls made while a queue is started. *)
Definition start_event (e : Event) : Prop :=
  match e with
  | EvConstructor | EvOpenNewMongoDriver _ | EvSetDriver _ | EvStart _ => True
  | _ => False
  end.

(* What eviction and registration leave alone in a manager. *)
Definition same_config (g g' : remoteMongoQueueGroup) : Prop :=
  constructor g' = constructor g
  /\ mongooptions g' = mongooptions g
  /\ prefix g' = prefix g
  /\ pruneFrequency g' = pruneFrequency g
  /\ ttl g' = ttl g.

(* No pruner loop is started among these calls. *)
Definition no_pruner (evs : list Event) : Prop :=
  forall f, ~ In (EvPrunerLoop f) evs.


(* What each attempt to start a discovered collection answers, in the
   order of discovery. *)
Fixpoint attempts (jobsSuffix : string) (g : remoteMongoQueueGroup)
    (colls : list string) (w : World) : list (result Queue) :=
  match colls with
  | [] => []
  | coll :: rest =>
      let (r, w1) := startProcessingRemoteQueue jobsSuffix g coll w in
      r :: attempts jobsSuffix g rest w1
  end.

(* The failed attempts, each wrapped the way construction wraps it. *)
Fixpoint failures (rs : list (result Queue)) : list error :=
  match rs with
  | [] => []
  | Err err :: rest => Wrap err "problem starting queue" :: failures rest
  | Ok _ :: rest => failures rest
  end.

(* --------------------------------------------------------------------- *)
(* Concrete worlds for the examples                                       *)
(* --------------------------------------------------------------------- *)

(* A matcher for the patterns the manager sends ("^", ".", "c*" and
   literal bytes), anchored at the start as those patterns are. *)
Fixpoint matchhere (re text : string) {struct re} : bool :=
  match re with
  | EmptyString => true
  | String c re1 =>
      match re1 with
      | String "*"%char re2 =>
          (fix star (t : string) : bool :=
             matchhere re2 t
             || match t with
                | String a t' => (Ascii.eqb c "."%char || Ascii.eqb a c) && star t'
                | EmptyString => false
                end) text
      | _ =>
          match text with
          | String a t' => (Ascii.eqb c "."%char || Ascii.eqb c a) && matchhere re1 t'
          | EmptyString => false
          end
      end
  end.

Definition anchored (pattern name : string) : bool :=
  match pattern with
  | String "^"%char re => matchhere re name
  | _ => false
  end.

Definition hour : Z := 3600 * 1000000000.

Definition world (now : Z) (cs : list (string * list Doc)) : World :=
  {| clock := now; collections := cs; regexMatch := anchored;
     listFailure := None; countFailure := fun _ _ => None;
     dropFailure := fun _ => None; openDriverFailure := fun _ => None;
     constructed := 0; log := [] |}.

(* The same world, with CountDocuments failing on the collections [bad]. *)
Definition flaky (bad : list string) (w : World) : World :=
  {| clock := clock w; collections := collections w; regexMatch := regexMatch w;
     listFailure := listFailure w;
     countFailure := fun coll _ =>
       if List.existsb (String.eqb coll) bad
       then Some (External "CountDocuments") else None;
     dropFailure := dropFailure w; openDriverFailure := openDriverFailure w;
     constructed := constructed w; log := log w |}.

(* A store with a collection holding a pending job, one holding a job
   completed half an hour before [now], and an empty one. *)
Definition pending : Doc := {| completed := false; in_prog := true; mod_ts := 0 |}.

Definition finished (at_ : Z) : Doc :=
  {| completed := true; in_prog := false; mod_ts := at_ |}.

Definition mixed (now : Z) : World :=
  world now [("svc.busy.jobs", [pending]);
             ("svc.done.jobs", [finished (now - 1800 * 1000000000)]);
             ("svc.empty.jobs", [])].


Definition queue (n : nat) : Queue := {| handle := n; SetDriver := None; Start := None |}.

Definition group (ctor : RemoteConstructor) (qs : gmap string Queue)
    (ts : gmap string Z) : remoteMongoQueueGroup :=
  {| constructor := ctor; mongooptions := {| DB := "amboy"; URI := "mongodb://localhost:27017" |};
     prefix := "svc."; pruneFrequency := hour; queues := qs; ttl := hour; ttlMap := ts |}.

(* --------------------------------------------------------------------- *)
(* Facts about slicing                                                    *)
(* --------------------------------------------------------------------- *)

Lemma length_app_string (a b : string) :
  String.length (a ++ b) = (String.length a + String.length b)%nat.
Proof. induction a as [|c a IH]; simpl; [reflexivity | now rewrite IH]. Qed.

Lemma substring_whole (s : string) :
  String.substring 0 (String.length s) s = s.
Proof. induction s as [|c s IH]; simpl; [reflexivity | now rewrite IH]. Qed.

Lemma substring_app_left (a b : string) :
  String.substring 0 (String.length a) (a ++ b) = a.
Proof.
  induction a as [|c a IH]; simpl.
  - destruct b; reflexivity.
  - now rewrite IH.
Qed.

Lemma substring_app_right (a b : string) :
  String.substring (String.length a) (String.length b) (a ++ b) = b.
Proof.
  induction a as [|c a IH]; simpl.
  - apply substring_whole.
  - exact IH.
Qed.

Lemma HasPrefix_app (a b : string) : strings.HasPrefix (a ++ b) a = true.
Proof.
  unfold strings.HasPrefix, strings.slice_to.
  rewrite substring_app_left, String.eqb_refl, length_app_string.
  rewrite andb_true_r. apply Nat.leb_le. lia.
Qed.

Lemma HasSuffix_app (a b : string) : strings.HasSuffix (a ++ b) b = true.
Proof.
  unfold strings.HasSuffix, strings.slice_from.
  rewrite length_app_string.
  replace (String.length a + String.length b - String.length b)%nat
    with (String.length a) by lia.
  replace (String.length a + String.length b - String.length a)%nat
    with (String.length b) by lia.
  rewrite substring_app_right, String.eqb_refl, andb_true_r.
  apply Nat.leb_le. lia.
Qed.

Lemma TrimPrefix_app (a b : string) : strings.TrimPrefix (a ++ b) a = b.
Proof.
  unfold strings.TrimPrefix. rewrite HasPrefix_app.
  unfold strings.slice_from. rewrite length_app_string.
  replace (String.length a + String.length b - String.length a)%nat
    with (String.length b) by lia.
  apply substring_app_right.
Qed.

Lemma TrimSuffix_app (a b : string) : strings.TrimSuffix (a ++ b) b = a.
Proof.
  unfold strings.TrimSuffix. rewrite HasSuffix_app.
  unfold strings.slice_to. rewrite length_app_string.
  replace (String.length a + String.length b - String.length b)%nat
    with (String.length a) by lia.
  apply substring_app_left.
Qed.

Lemma app_string_assoc (a b c : string) : (a ++ b) ++ c = a ++ (b ++ c).
Proof.
  induction a as [|x a IH]; [reflexivity |].
  change (String x ((a ++ b) ++ c) = String x (a ++ (b ++ c))).
  now rewrite IH.
Qed.

(** C8: for every prefix, every queue suffix and every logical id,
    idFromCollection (strip the prefix, then strip the queue suffix) applied
    to collectionFromID (prefix + id + queue suffix) gives back the id. *)
Theorem idFromCollection_collectionFromID (jobsSuffix prefix id : string) :
  idFromCollection jobsSuffix prefix (collectionFromID jobsSuffix prefix id) = id.
Proof.
  unfold idFromCollection, collectionFromID, addJobsSuffix, trimJobsSuffix.
  rewrite app_string_assoc, TrimPrefix_app.
  apply TrimSuffix_app.
Qed.


(* --------------------------------------------------------------------- *)
(* Running a computation                                                  *)
(* --------------------------------------------------------------------- *)

Lemma bind_run {A B : Type} (m : M A) (k : A -> M B) (w w1 : World) (a : A) :
  m w = (a, w1) -> bind m k w = k a w1.
Proof. intros H. unfold bind. now rewrite H. Qed.

(* --------------------------------------------------------------------- *)
(* Put                                                                    *)
(* --------------------------------------------------------------------- *)

(** C4: Put on an id that is already registered answers the "already
    exists" error and changes neither the manager (the old handle stays,
    the last access is not stamped) nor the world; Put on an absent id
    stores the handle it was given and stamps the last access with the
    current time. *)
Theorem Put_conflict_or_register (g : remoteMongoQueueGroup) (id : string)
    (queue : Queue) (w : World) :
  (forall old, queues g !! id = Some old ->
     Put g id queue w = ((Some (New "a queue already exists at this index"), g), w))
  /\ (queues g !! id = None ->
      exists g',
        Put g id queue w = ((None, g'), w)
        /\ queues g' = <[id := queue]> (queues g)
        /\ ttlMap g' = <[id := clock w]> (ttlMap g)
        /\ queues g' !! id = Some queue
        /\ ttlMap g' !! id = Some (clock w)).
Proof.
  split.
  - intros old Hold. unfold Put. now rewrite Hold.
  - intros Hnone. exists (register id queue (clock w) g).
    unfold Put. rewrite Hnone. cbn.
    repeat split; apply lookup_insert_eq.
Qed.

Lemma Put_conflict_or_register_witness :
  Put (group (fun n => Ok (queue n)) {["beta" := queue 1]} {["beta" := 5]})
      "beta" (queue 2) (world 9 [])
  = ((Some (New "a queue already exists at this index"),
      group (fun n => Ok (queue n)) {["beta" := queue 1]} {["beta" := 5]}),
     world 9 [])
  /\ exists g',
       Put (group (fun n => Ok (queue n)) ∅ ∅) "beta" (queue 2) (world 9 [])
       = ((None, g'), world 9 [])
       /\ queues g' !! "beta" = Some (queue 2)
       /\ ttlMap g' !! "beta" = Some 9.
Proof.
  split.
  - apply (proj1 (Put_conflict_or_register _ "beta" (queue 2) (world 9 [])) (queue 1)).
    reflexivity.
  - destruct (Put_conflict_or_register (group (fun n => Ok (queue n)) ∅ ∅)
                "beta" (queue 2) (world 9 [])) as [_ Hreg].
    destruct Hreg as (g' & H1 & _ & _ & H4 & H5); [reflexivity |].
    exists g'. auto.
Defined.

(* --------------------------------------------------------------------- *)
(* Starting a queue                                                       *)
(* --------------------------------------------------------------------- *)

Lemma same_oracles_refl (w : World) : same_oracles w w.
Proof. repeat split. Qed.

Lemma same_oracles_trans (w1 w2 w3 : World) :
  same_oracles w1 w2 -> same_oracles w2 w3 -> same_oracles w1 w3.
Proof.
  unfold same_oracles. intros (a1 & a2 & a3 & a4 & a5 & a6) (b1 & b2 & b3 & b4 & b5 & b6).
  repeat split; congruence.
Qed.

Lemma startProcessingRemoteQueue_ok (jobsSuffix : string) (g : remoteMongoQueueGroup)
    (coll : string) (w : World) (q : Queue) :
  constructor g (constructed w) = Ok q ->
  openDriverFailure w (trimJobsSuffix jobsSuffix coll) = None ->
  SetDriver q = None ->
  Start q = None ->
  exists w',
    startProcessingRemoteQueue jobsSuffix g coll w = (Ok q, w')
    /\ log w' = (log w ++ [EvConstructor;
                           EvOpenNewMongoDriver (trimJobsSuffix jobsSuffix coll);
                           EvSetDriver q; EvStart q])%list
    /\ constructed w' = S (constructed w)
    /\ collections w' = collections w
    /\ same_oracles w w'.
Proof.
  intros Hc Ho Hs Ht. eexists.
  unfold startProcessingRemoteQueue, bind, emit, ret. cbn.
  rewrite Hc. cbn. rewrite Ho, Hs. cbn. rewrite Ht.
  split; [reflexivity |]. cbn.
  rewrite <- !app_assoc. cbn.
  repeat split.
Qed.

Lemma startProcessingRemoteQueue_err (jobsSuffix : string) (g : remoteMongoQueueGroup)
    (coll : string) (w : World) :
  start_fails g (trimJobsSuffix jobsSuffix coll) w ->
  exists err msg w',
    startProcessingRemoteQueue jobsSuffix g coll w = (Err (Wrap err msg), w')
    /\ constructed w' = S (constructed w)
    /\ collections w' = collections w
    /\ same_oracles w w'.
Proof.
  unfold start_fails, startProcessingRemoteQueue, bind, emit, ret. cbn.
  destruct (constructor g (constructed w)) as [q | e]; cbn.
  - destruct (openDriverFailure w (trimJobsSuffix jobsSuffix coll)) as [e1 |]; cbn.
    + intros _. do 3 eexists. split; [reflexivity |]. repeat split.
    + destruct (SetDriver q) as [e2 |]; cbn.
      * intros _. do 3 eexists. split; [reflexivity |]. repeat split.
      * destruct (Start q) as [e3 |]; cbn.
        -- intros _. do 3 eexists. split; [reflexivity |]. repeat split.
        -- intros [H | [H | H]]; destruct H; discriminate.
  - intros _. do 3 eexists. split; [reflexivity |]. repeat split.
Qed.

(* --------------------------------------------------------------------- *)
(* Get                                                                    *)
(* --------------------------------------------------------------------- *)

(** C5: Get on a registered id answers the registered handle and stamps the
    last access with the current time, touching nothing else; Get on an
    absent id derives the collection name from the id, calls the
    constructor, opens a driver, sets it, starts the queue (in this order,
    as the log shows), registers the new handle with the current time and
    answers it. *)
Theorem Get_registered_or_started (jobsSuffix : string) (g : remoteMongoQueueGroup)
    (id : string) (w : World) :
  (forall q, queues g !! id = Some q ->
     exists g',
       Get jobsSuffix g id w = ((Ok q, g'), w)
       /\ queues g' = queues g
       /\ ttlMap g' = <[id := clock w]> (ttlMap g))
  /\ (forall q,
        queues g !! id = None ->
        constructor g (constructed w) = Ok q ->
        openDriverFailure w
          (trimJobsSuffix jobsSuffix (collectionFromID jobsSuffix (prefix g) id)) = None ->
        SetDriver q = None ->
        Start q = None ->
        exists g' w',
          Get jobsSuffix g id w = ((Ok q, g'), w')
          /\ queues g' = <[id := q]> (queues g)
          /\ ttlMap g' = <[id := clock w]> (ttlMap g)
          /\ log w' = (log w ++ [EvConstructor; EvOpenNewMongoDriver (prefix g ++ id);
                                 EvSetDriver q; EvStart q])%list).
Proof.
  split.
  - intros q Hq. exists (touch id (clock w) g).
    unfold Get. rewrite Hq. now cbn.
  - intros q Hnone Hc Ho Hs Ht.
    destruct (startProcessingRemoteQueue_ok jobsSuffix g
                (collectionFromID jobsSuffix (prefix g) id) w q Hc Ho Hs Ht)
      as (w' & Hrun & Hlog & _ & _ & Hclock & _).
    exists (register id q (clock w') g), w'.
    unfold Get. rewrite Hnone.
    unfold g_collectionFromID.
    rewrite (bind_run _ _ _ _ _ Hrun). cbn.
    rewrite Hclock. repeat split.
    rewrite Hlog. unfold collectionFromID, addJobsSuffix, trimJobsSuffix.
    now rewrite TrimSuffix_app.
Qed.

Lemma Get_registered_or_started_witness :
  (exists g',
     Get ".jobs" (group (fun n => Ok (queue n)) {["alpha" := queue 7]} {["alpha" := 3]})
         "alpha" (world 50 [])
     = ((Ok (queue 7), g'), world 50 [])
     /\ ttlMap g' = <["alpha" := 50]> {["alpha" := 3]})
  /\ (exists g' w',
        Get ".jobs" (group (fun n => Ok (queue n)) ∅ ∅) "alpha" (world 50 [])
        = ((Ok (queue 0), g'), w')
        /\ queues g' = <["alpha" := queue 0]> ∅
        /\ log w' = [EvConstructor; EvOpenNewMongoDriver "svc.alpha";
                     EvSetDriver (queue 0); EvStart (queue 0)]).
Proof.
  split.
  - destruct (Get_registered_or_started ".jobs"
                (group (fun n => Ok (queue n)) {["alpha" := queue 7]} {["alpha" := 3]})
                "alpha" (world 50 [])) as [Hhit _].
    destruct (Hhit (queue 7)) as (g' & H1 & _ & H3); [reflexivity |].
    exists g'. auto.
  - destruct (Get_registered_or_started ".jobs"
                (group (fun n => Ok (queue n)) ∅ ∅) "alpha" (world 50 [])) as [_ Hmiss].
    destruct (Hmiss (queue 0)) as (g' & w' & H1 & H2 & _ & H4);
      [reflexivity | reflexivity | reflexivity | reflexivity | reflexivity |].
    exists g', w'. auto.
Defined.

(** C10: when the id is absent and a step of starting its queue fails (the
    constructor, opening the driver, SetDriver or Start answers an error),
    Get answers that error wrapped and hands the manager back as it was:
    neither the registry nor the last-access map gains an entry. *)
Theorem Get_start_failure_keeps_state (jobsSuffix : string) (g : remoteMongoQueueGroup)
    (id : string) (w : World) :
  queues g !! id = None ->
  start_fails g (trimJobsSuffix jobsSuffix (collectionFromID jobsSuffix (prefix g) id)) w ->
  exists err w',
    Get jobsSuffix g id w = ((Err (Wrap err "problem starting queue"), g), w').
Proof.
  intros Hnone Hfail.
  destruct (startProcessingRemoteQueue_err jobsSuffix g _ w Hfail)
    as (err & msg & w' & Hrun & _).
  exists (Wrap err msg), w'.
  unfold Get. rewrite Hnone. unfold g_collectionFromID.
  now rewrite (bind_run _ _ _ _ _ Hrun).
Qed.

Lemma Get_start_failure_keeps_state_witness :
  exists err w',
    Get ".jobs" (group (fun n => Ok {| handle := n; SetDriver := None;
                                       Start := Some (External "Start") |}) ∅ ∅)
        "alpha" (world 50 [])
    = ((Err (Wrap err "problem starting queue"),
        group (fun n => Ok {| handle := n; SetDriver := None;
                              Start := Some (External "Start") |}) ∅ ∅), w').
Proof.
  apply (Get_start_failure_keeps_state ".jobs").
  - reflexivity.
  - cbn. right. right. eexists. reflexivity.
Defined.

(* --------------------------------------------------------------------- *)
(* Construction: configuration                                            *)
(* --------------------------------------------------------------------- *)

(** C7: with an empty database name or an empty URI, construction answers
    an error and no manager, and the world is the one it started in: no
    call to the store, to the constructor or to a queue has been made, and
    no pruner loop has been started. The error is one of the three
    configuration errors. *)
Theorem NewMongoRemoteQueueGroup_rejects_empty_identity (jobsSuffix : string)
    (NumCPU : nat) (validate : RemoteQueueGroupOptions -> option error)
    (opts : RemoteQueueGroupOptions) (mdbopts : MongoDBOptions) (w : World) :
  DB mdbopts = "" \/ URI mdbopts = "" ->
  exists err,
    NewMongoRemoteQueueGroup jobsSuffix NumCPU validate opts mdbopts w = (Err err, w)
    /\ ((exists v, validate opts = Some v /\ err = Wrap v "invalid remote queue options")
        \/ err = New "no database name specified"
        \/ err = New "no mongodb uri specified").
Proof.
  intros Hempty. unfold NewMongoRemoteQueueGroup.
  destruct (validate opts) as [v |].
  - eexists. split; [reflexivity |]. left. now exists v.
  - destruct (String.eqb_spec (DB mdbopts) "") as [Hdb | Hdb].
    + eexists. split; [reflexivity |]. right. now left.
    + destruct Hempty as [Hdb' | Huri]; [contradiction |].
      rewrite Huri. cbn.
      eexists. split; [reflexivity |]. right. now right.
Qed.

Lemma NewMongoRemoteQueueGroup_rejects_empty_identity_witness :
  exists err,
    NewMongoRemoteQueueGroup ".jobs" 2 (fun _ => None)
      {| Constructor := fun n => Ok (queue n); Prefix := "svc.";
         PruneFrequency := hour; TTL := hour |}
      {| DB := "amboy"; URI := "" |}
      (world 0 [("svc.alpha.jobs", [])])
    = (Err err, world 0 [("svc.alpha.jobs", [])])
    /\ ((exists v, (fun _ : RemoteQueueGroupOptions => @None error)
                     {| Constructor := fun n => Ok (queue n); Prefix := "svc.";
                        PruneFrequency := hour; TTL := hour |} = Some v
                   /\ err = Wrap v "invalid remote queue options")
        \/ err = New "no database name specified"
        \/ err = New "no mongodb uri specified").
Proof.
  apply (NewMongoRemoteQueueGroup_rejects_empty_identity ".jobs" 2 (fun _ => None)).
  right. reflexivity.
Defined.

(* --------------------------------------------------------------------- *)
(* The registry and the last-access map keep the same ids                 *)
(* --------------------------------------------------------------------- *)

Lemma same_ids_touch (id : string) (t : Z) (g : remoteMongoQueueGroup) :
  is_Some (queues g !! id) -> same_ids g -> same_ids (touch id t g).
Proof.
  unfold same_ids, touch. cbn. intros Hin Hdom.
  rewrite dom_insert_L, <- Hdom.
  apply elem_of_dom in Hin. set_solver.
Qed.

Lemma same_ids_register (id : string) (q : Queue) (t : Z) (g : remoteMongoQueueGroup) :
  same_ids g -> same_ids (register id q t g).
Proof.
  unfold same_ids, register. cbn. intros Hdom.
  now rewrite !dom_insert_L, Hdom.
Qed.

Lemma same_ids_evict (id : string) (g : remoteMongoQueueGroup) :
  same_ids g -> same_ids (evict id g).
Proof.
  unfold same_ids, evict. cbn. intros Hdom.
  now rewrite !dom_delete_L, Hdom.
Qed.

Lemma same_ids_evictAll (ch : list string) (g : remoteMongoQueueGroup) :
  same_ids g -> same_ids (evictAll ch g).
Proof.
  revert g. induction ch as [| id ch IH]; intros g Hg; cbn.
  - exact Hg.
  - apply IH. now apply same_ids_evict.
Qed.

Lemma same_ids_Get (jobsSuffix : string) (g : remoteMongoQueueGroup) (id : string)
    (w : World) :
  same_ids g -> same_ids (snd (fst (Get jobsSuffix g id w))).
Proof.
  intros Hg. unfold Get.
  destruct (queues g !! id) as [q |] eqn:Hq.
  - cbn. apply same_ids_touch; [rewrite Hq; eauto | exact Hg].
  - unfold bind.
    destruct (startProcessingRemoteQueue jobsSuffix g (g_collectionFromID jobsSuffix g id) w)
      as [[q | err] w'].
    + cbn. now apply same_ids_register.
    + cbn. exact Hg.
Qed.

Lemma same_ids_Put (g : remoteMongoQueueGroup) (id : string) (q : Queue) (w : World) :
  same_ids g -> same_ids (snd (fst (Put g id q w))).
Proof.
  intros Hg. unfold Put.
  destruct (queues g !! id) as [q0 |]; cbn.
  - exact Hg.
  - now apply same_ids_register.
Qed.

Lemma same_ids_Prune (jobsSuffix : string) (NumCPU : nat) (g : remoteMongoQueueGroup)
    (w : World) :
  same_ids g -> same_ids (snd (fst (Prune jobsSuffix NumCPU g w))).
Proof.
  intros Hg. unfold Prune, bind.
  destruct (getExistingCollections (prefix g) w) as [[colls | err] w1].
  - cbn.
    destruct (pruneWorkers jobsSuffix g NumCPU _ _ w1) as [st w2].
    destruct (closeRunners _ w2) as [u w3]. cbn.
    now do 2 apply same_ids_evictAll.
  - cbn. exact Hg.
Qed.

Lemma same_ids_startExisting (jobsSuffix : string) (colls : list string) :
  forall (g : remoteMongoQueueGroup) (c : Catcher) (w : World),
    same_ids g -> same_ids (snd (fst (startExisting jobsSuffix g colls c w))).
Proof.
  induction colls as [| coll rest IH]; intros g c w Hg; cbn.
  - exact Hg.
  - unfold bind.
    destruct (startProcessingRemoteQueue jobsSuffix g coll w) as [[q | err] w1].
    + cbn. apply IH. now apply same_ids_register.
    + now apply IH.
Qed.

Lemma same_ids_empty (c : RemoteConstructor) (m : MongoDBOptions) (p : string) (f t : Z) :
  same_ids {| constructor := c; mongooptions := m; prefix := p; pruneFrequency := f;
              queues := ∅; ttl := t; ttlMap := ∅ |}.
Proof. unfold same_ids. cbn. now rewrite !dom_empty_L. Qed.

Lemma same_ids_NewMongoRemoteQueueGroup (jobsSuffix : string) (NumCPU : nat)
    (validate : RemoteQueueGroupOptions -> option error)
    (opts : RemoteQueueGroupOptions) (mdbopts : MongoDBOptions)
    (w w' : World) (g : remoteMongoQueueGroup) :
  NewMongoRemoteQueueGroup jobsSuffix NumCPU validate opts mdbopts w = (Ok g, w') ->
  same_ids g.
Proof.
  unfold NewMongoRemoteQueueGroup.
  destruct (validate opts); [discriminate |].
  destruct (String.eqb (DB mdbopts) ""); [discriminate |].
  destruct (String.eqb (URI mdbopts) ""); [discriminate |].
  set (g0 := {| constructor := Constructor opts; mongooptions := mdbopts;
                prefix := Prefix opts; pruneFrequency := PruneFrequency opts;
                queues := ∅; ttl := TTL opts; ttlMap := ∅ |}).
  assert (H0 : same_ids g0) by apply same_ids_empty.
  unfold bind at 1.
  assert (H1 : same_ids (snd (fst ((if pruning opts
                                    then Prune jobsSuffix NumCPU g0
                                    else ret (None, g0)) w)))).
  { destruct (pruning opts); [now apply same_ids_Prune | exact H0]. }
  destruct ((if pruning opts then Prune jobsSuffix NumCPU g0 else ret (None, g0)) w)
    as [[perr g1] w1].
  cbn in H1. destruct perr; [discriminate |].
  unfold bind at 1.
  destruct (getExistingCollections (prefix g1) w1) as [[colls | err] w2]; [| discriminate].
  unfold bind at 1.
  pose proof (same_ids_startExisting jobsSuffix colls g1 [] w2 H1) as H2.
  destruct (startExisting jobsSuffix g1 colls [] w2) as [[c g2] w3].
  cbn in H2.
  destruct (Resolve c); [discriminate |].
  unfold bind, ret.
  destruct ((if pruning opts then emit (EvPrunerLoop (PruneFrequency opts)) else _) w3).
  intros H. now inversion H; subst.
Qed.

(** C9: every operation keeps the registry and the last-access map on the
    same key set: a manager that construction hands out has it, and Get,
    Put and Prune (both of its eviction passes) preserve it. *)
Theorem same_ids_invariant (jobsSuffix : string) (NumCPU : nat)
    (validate : RemoteQueueGroupOptions -> option error) :
  (forall opts mdbopts w w' g,
     NewMongoRemoteQueueGroup jobsSuffix NumCPU validate opts mdbopts w = (Ok g, w') ->
     same_ids g)
  /\ (forall g id w, same_ids g -> same_ids (snd (fst (Get jobsSuffix g id w))))
  /\ (forall g id q w, same_ids g -> same_ids (snd (fst (Put g id q w))))
  /\ (forall g w, same_ids g -> same_ids (snd (fst (Prune jobsSuffix NumCPU g w)))).
Proof.
  split; [| split; [| split]].
  - intros. eapply same_ids_NewMongoRemoteQueueGroup; eassumption.
  - intros. now apply same_ids_Get.
  - intros. now apply same_ids_Put.
  - intros. now apply same_ids_Prune.
Qed.

Lemma same_ids_invariant_witness :
  (exists g w',
     NewMongoRemoteQueueGroup ".jobs" 2 (fun _ => None)
       {| Constructor := fun n => Ok (queue n); Prefix := "svc.";
          PruneFrequency := 0; TTL := hour |}
       {| DB := "amboy"; URI := "mongodb://localhost:27017" |}
       (world 0 [("svc.alpha.jobs", [])]) = (Ok g, w')
     /\ same_ids g)
  /\ same_ids (snd (fst (Get ".jobs"
        (group (fun n => Ok (queue n)) {["alpha" := queue 7]} {["alpha" := 3]})
        "beta" (world 50 []))))
  /\ same_ids (snd (fst (Put
        (group (fun n => Ok (queue n)) {["alpha" := queue 7]} {["alpha" := 3]})
        "beta" (queue 8) (world 50 []))))
  /\ same_ids (snd (fst (Prune ".jobs" 2
        (group (fun n => Ok (queue n)) {["alpha" := queue 7]} {["alpha" := 3]})
        (world (2 * hour) [("svc.alpha.jobs", [])])))).
Proof.
  destruct (same_ids_invariant ".jobs" 2 (fun _ => None))
    as (Hnew & Hget & Hput & Hprune).
  assert (Hg : same_ids (group (fun n => Ok (queue n))
                           {["alpha" := queue 7]} {["alpha" := 3]})).
  { unfold same_ids. cbn. now rewrite !dom_singleton_L. }
  split; [| split; [| split]].
  - assert (Hrun : exists g w',
               NewMongoRemoteQueueGroup ".jobs" 2 (fun _ => None)
                 {| Constructor := fun n => Ok (queue n); Prefix := "svc.";
                    PruneFrequency := 0; TTL := hour |}
                 {| DB := "amboy"; URI := "mongodb://localhost:27017" |}
                 (world 0 [("svc.alpha.jobs", [])]) = (Ok g, w'))
      by (do 2 eexists; vm_compute; reflexivity).
    destruct Hrun as (g & w' & Hrun). exists g, w'.
    split; [exact Hrun | exact (Hnew _ _ _ _ _ Hrun)].
  - apply Hget, Hg.
  - apply Hput, Hg.
  - apply Hprune, Hg.
Defined.

(* --------------------------------------------------------------------- *)
(* Construction: starting the discovered queues                           *)
(* --------------------------------------------------------------------- *)

Lemma startProcessingRemoteQueue_constructor (jobsSuffix : string)
    (g g' : remoteMongoQueueGroup) (coll : string) (w : World) :
  constructor g = constructor g' ->
  startProcessingRemoteQueue jobsSuffix g coll w
  = startProcessingRemoteQueue jobsSuffix g' coll w.
Proof.
  intros H. unfold startProcessingRemoteQueue, bind. cbn. now rewrite H.
Qed.

Lemma startProcessingRemoteQueue_constructed (jobsSuffix : string)
    (g : remoteMongoQueueGroup) (coll : string) (w : World) :
  constructed (snd (startProcessingRemoteQueue jobsSuffix g coll w)) = S (constructed w).
Proof.
  unfold startProcessingRemoteQueue, bind, emit, ret. cbn.
  destruct (constructor g (constructed w)) as [q | e]; cbn; [| reflexivity].
  destruct (openDriverFailure w _); cbn; [reflexivity |].
  destruct (SetDriver q); cbn; [reflexivity |].
  destruct (Start q); reflexivity.
Qed.

Lemma length_attempts (jobsSuffix : string) (g : remoteMongoQueueGroup)
    (colls : list string) :
  forall w, List.length (attempts jobsSuffix g colls w) = List.length colls.
Proof.
  induction colls as [| coll rest IH]; intros w; cbn [attempts List.length];
    [reflexivity |].
  destruct (startProcessingRemoteQueue jobsSuffix g coll w) as [r w1].
  cbn [List.length]. now rewrite IH.
Qed.

(* The loop attempts every collection, whatever became of the ones before,
   and gathers each failure. *)
Lemma startExisting_gathers (jobsSuffix : string) (g0 : remoteMongoQueueGroup)
    (colls : list string) :
  forall (g : remoteMongoQueueGroup) (c : Catcher) (w : World),
    constructor g = constructor g0 ->
    exists g' w',
      startExisting jobsSuffix g colls c w
      = ((c ++ failures (attempts jobsSuffix g0 colls w))%list, g', w')
      /\ constructed w' = (constructed w + List.length colls)%nat.
Proof.
  induction colls as [| coll rest IH]; intros g c w Hg;
    cbn [startExisting attempts failures List.length].
  - exists g, w. rewrite app_nil_r. split; [reflexivity | lia].
  - unfold bind at 1.
    rewrite (startProcessingRemoteQueue_constructor jobsSuffix g g0 coll w Hg).
    pose proof (startProcessingRemoteQueue_constructed jobsSuffix g0 coll w) as Hn.
    destruct (startProcessingRemoteQueue jobsSuffix g0 coll w) as [[q | err] w1];
      cbn [snd] in Hn; cbn [failures].
    + unfold bind at 1. cbn [Now].
      destruct (IH (register (g_idFromCollection jobsSuffix g coll) q (clock w1) g) c w1 Hg)
        as (g' & w' & Hrun & Hcount).
      exists g', w'. split; [exact Hrun | lia].
    + destruct (IH g (Add (Wrap err "problem starting queue") c) w1 Hg)
        as (g' & w' & Hrun & Hcount).
      exists g', w'. split; [| lia].
      rewrite Hrun. unfold Add. now rewrite <- app_assoc.
Qed.

(** C6: once construction reaches the collections it discovered, it attempts
    to start every one of them (the constructor is called once per
    collection, whatever the earlier attempts answered) and its catcher
    holds every failed attempt; when at least one attempt failed,
    construction answers all of them combined in one error and no manager,
    and no pruner loop is started. *)
Theorem NewMongoRemoteQueueGroup_gathers_start_failures (jobsSuffix : string)
    (NumCPU : nat) (validate : RemoteQueueGroupOptions -> option error)
    (opts : RemoteQueueGroupOptions) (mdbopts : MongoDBOptions)
    (w w1 w2 : World) (g1 : remoteMongoQueueGroup) (colls : list string) :
  validate opts = None ->
  DB mdbopts <> "" ->
  URI mdbopts <> "" ->
  (if pruning opts
   then Prune jobsSuffix NumCPU
          {| constructor := Constructor opts; mongooptions := mdbopts;
             prefix := Prefix opts; pruneFrequency := PruneFrequency opts;
             queues := ∅; ttl := TTL opts; ttlMap := ∅ |}
   else ret (None,
          {| constructor := Constructor opts; mongooptions := mdbopts;
             prefix := Prefix opts; pruneFrequency := PruneFrequency opts;
             queues := ∅; ttl := TTL opts; ttlMap := ∅ |})) w = ((None, g1), w1) ->
  getExistingCollections (prefix g1) w1 = (Ok colls, w2) ->
  List.length (attempts jobsSuffix g1 colls w2) = List.length colls
  /\ exists g2 w3,
       startExisting jobsSuffix g1 colls [] w2
       = ((failures (attempts jobsSuffix g1 colls w2), g2), w3)
       /\ constructed w3 = (constructed w2 + List.length colls)%nat
       /\ (failures (attempts jobsSuffix g1 colls w2) <> [] ->
           NewMongoRemoteQueueGroup jobsSuffix NumCPU validate opts mdbopts w
           = (Err (Multi (failures (attempts jobsSuffix g1 colls w2))), w3)).
Proof.
  intros Hv Hdb Huri Hprune Hlist.
  split; [apply length_attempts |].
  destruct (startExisting_gathers jobsSuffix g1 colls g1 [] w2 eq_refl)
    as (g2 & w3 & Hrun & Hcount).
  cbn in Hrun. exists g2, w3. split; [exact Hrun |]. split; [exact Hcount |].
  intros Hfail. unfold NewMongoRemoteQueueGroup. rewrite Hv.
  destruct (String.eqb_spec (DB mdbopts) ""); [contradiction |].
  destruct (String.eqb_spec (URI mdbopts) ""); [contradiction |].
  rewrite (bind_run _ _ _ _ _ Hprune).
  rewrite (bind_run _ _ _ _ _ Hlist).
  rewrite (bind_run _ _ _ _ _ Hrun).
  destruct (failures (attempts jobsSuffix g1 colls w2)); [contradiction | reflexivity].
Qed.

Lemma NewMongoRemoteQueueGroup_gathers_start_failures_witness :
  exists errs w3,
    NewMongoRemoteQueueGroup ".jobs" 2 (fun _ => None)
      {| Constructor := fun n => if Nat.eqb n 1 then Ok (queue n)
                                 else Err (External "constructor");
         Prefix := "svc."; PruneFrequency := 0; TTL := 0 |}
      {| DB := "amboy"; URI := "mongodb://localhost:27017" |}
      (world 0 [("svc.a.jobs", []); ("svc.b.jobs", []); ("svc.c.jobs", [])])
    = (Err (Multi errs), w3)
    /\ errs = [Wrap (Wrap (External "constructor") "problem starting queue")
                 "problem starting queue";
               Wrap (Wrap (External "constructor") "problem starting queue")
                 "problem starting queue"]
    /\ constructed w3 = 3%nat.
Proof.
  destruct (NewMongoRemoteQueueGroup_gathers_start_failures ".jobs" 2 (fun _ => None)
              {| Constructor := fun n => if Nat.eqb n 1 then Ok (queue n)
                                         else Err (External "constructor");
                 Prefix := "svc."; PruneFrequency := 0; TTL := 0 |}
              {| DB := "amboy"; URI := "mongodb://localhost:27017" |}
              (world 0 [("svc.a.jobs", []); ("svc.b.jobs", []); ("svc.c.jobs", [])])
              (world 0 [("svc.a.jobs", []); ("svc.b.jobs", []); ("svc.c.jobs", [])])
              (set_log [EvListCollections "^svc..*"]
                 (world 0 [("svc.a.jobs", []); ("svc.b.jobs", []); ("svc.c.jobs", [])]))
              _ ["svc.a.jobs"; "svc.b.jobs"; "svc.c.jobs"]
              eq_refl ltac:(discriminate) ltac:(discriminate) eq_refl eq_refl)
    as (_ & g2 & w3 & _ & Hcount & Hnew).
  eexists _, w3. split; [apply Hnew; discriminate |].
  split; [reflexivity | exact Hcount].
Defined.


(* --------------------------------------------------------------------- *)
(* Prune on concrete stores                                               *)
(* --------------------------------------------------------------------- *)

(** C1, evaluated on the code: the registry holds "alpha", touched at the
    very instant of the pass (ttl is one hour), and its collection
    "svc.alpha.jobs" is listed by the store. The collection is not put on
    collsToCheck, no count and no drop is issued, and yet the second pass
    closes the queue's Runner and deletes "alpha" from the registry and from
    the last-access map: the second pass looks an id up among the checked
    collections, not among the existing ones. *)
Theorem Prune_evicts_recently_touched (NumCPU : nat) :
  let g := group (fun n => Ok (queue n)) {["alpha" := queue 7]} {["alpha" := 100]} in
  let w := world 100 [("svc.alpha.jobs", [])] in
  let r := Prune ".jobs" NumCPU g w in
  queues g !! "alpha" = Some (queue 7)
  /\ needsCheck ".jobs" g (clock w) "svc.alpha.jobs" = false
  /\ fst (getExistingCollections (prefix g) w) = Ok ["svc.alpha.jobs"]
  /\ fst (fst r) = None
  /\ queues (snd (fst r)) !! "alpha" = None
  /\ ttlMap (snd (fst r)) !! "alpha" = None
  /\ log (snd r) = [EvListCollections "^svc..*"; EvRunnerClose (queue 7)]
  /\ collections (snd r) = [("svc.alpha.jobs", [])].
Proof. cbv zeta. repeat split; vm_compute; reflexivity. Qed.

(** C3, evaluated on the code: a goroutine whose count fails returns, so the
    collections it would have received next are left on the channel. With
    one goroutine, a failing "svc.a.jobs" listed before an empty
    "svc.b.jobs" leaves "svc.b.jobs" uncounted and undropped, although a
    pass over "svc.b.jobs" alone drops it; with two goroutines, two failing
    collections do the same. The errors that were met are answered
    combined. *)
Theorem Prune_count_failure_stops_goroutine :
  let g := group (fun n => Ok (queue n)) ∅ ∅ in
  let alone := Prune ".jobs" 1 g (world 100 [("svc.b.jobs", [])]) in
  let one := Prune ".jobs" 1 g
               (flaky ["svc.a.jobs"] (world 100 [("svc.a.jobs", []); ("svc.b.jobs", [])])) in
  let two := Prune ".jobs" 2 g
               (flaky ["svc.a.jobs"; "svc.c.jobs"]
                  (world 100 [("svc.a.jobs", []); ("svc.c.jobs", []); ("svc.b.jobs", [])])) in
  (fst (fst alone) = None
   /\ since (world 100 []) (snd alone)
      = [EvListCollections "^svc..*";
         EvCountDocuments "svc.b.jobs" (RecentlyCompleted (100 - hour));
         EvCountDocuments "svc.b.jobs" NotCompleted;
         EvDrop "svc.b.jobs"]
   /\ collections (snd alone) = [])
  /\ (fst (fst one) = Some (Multi [External "CountDocuments"])
      /\ since (world 100 []) (snd one)
         = [EvListCollections "^svc..*";
            EvCountDocuments "svc.a.jobs" (RecentlyCompleted (100 - hour))]
      /\ collections (snd one) = [("svc.a.jobs", []); ("svc.b.jobs", [])])
  /\ (fst (fst two) = Some (Multi [External "CountDocuments"; External "CountDocuments"])
      /\ since (world 100 []) (snd two)
         = [EvListCollections "^svc..*";
            EvCountDocuments "svc.a.jobs" (RecentlyCompleted (100 - hour));
            EvCountDocuments "svc.c.jobs" (RecentlyCompleted (100 - hour))]
      /\ collections (snd two)
         = [("svc.a.jobs", []); ("svc.c.jobs", []); ("svc.b.jobs", [])]).
Proof. cbv zeta. repeat split; vm_compute; reflexivity. Qed.

(* --------------------------------------------------------------------- *)
(* The store under Drop                                                   *)
(* --------------------------------------------------------------------- *)

Lemma documents_without_ne (c c' : string) (cs : list (string * list Doc)) :
  c' <> c -> documents c' (without c cs) = documents c' cs.
Proof.
  intros Hne. unfold documents, without.
  induction cs as [| [n ds] cs IH]; cbn; [reflexivity |].
  destruct (String.eqb_spec n c) as [-> | Hn]; cbn.
  - destruct (String.eqb_spec c c') as [E | _]; [congruence | exact IH].
  - destruct (String.eqb_spec n c'); [reflexivity | exact IH].
Qed.

Lemma documents_without_eq (c : string) (cs : list (string * list Doc)) :
  documents c (without c cs) = [].
Proof.
  unfold documents, without.
  induction cs as [| [n ds] cs IH]; cbn; [reflexivity |].
  destruct (String.eqb_spec n c) as [-> | Hn]; cbn; [exact IH |].
  destruct (String.eqb_spec n c); [contradiction | exact IH].
Qed.

Lemma exists_without_eq (c : string) (cs : list (string * list Doc)) :
  exists_collection c (without c cs) = false.
Proof.
  unfold exists_collection, without.
  induction cs as [| [n ds] cs IH]; cbn; [reflexivity |].
  destruct (String.eqb_spec n c) as [-> | Hn]; cbn; [exact IH |].
  destruct (String.eqb_spec n c); [contradiction | exact IH].
Qed.

Lemma exists_without_shrinks (c c' : string) (cs : list (string * list Doc)) :
  exists_collection c' cs = false -> exists_collection c' (without c cs) = false.
Proof.
  unfold exists_collection, without.
  induction cs as [| [n ds] cs IH]; cbn; [reflexivity |].
  intros H. apply orb_false_iff in H as [H1 H2].
  destruct (String.eqb n c); cbn; [now apply IH |].
  rewrite H1. now apply IH.
Qed.

Lemma count_eq (w : World) (coll : string) (f : Filter) :
  count w coll f
  = match countFailure w coll f with
    | Some err => Err err
    | None => Ok (countOf f (documents coll (collections w)))
    end.
Proof.
  unfold count, CountDocuments, bind, emit. cbn.
  now destruct (countFailure w coll f).
Qed.

(* --------------------------------------------------------------------- *)
(* One collection in the hands of a goroutine                             *)
(* --------------------------------------------------------------------- *)

Lemma countOf_nonneg (f : Filter) (ds : list Doc) : 0 <= countOf f ds.
Proof. unfold countOf. lia. Qed.

Lemma Ok_inj {A : Type} (a b : A) : Ok a = Ok b -> a = b.
Proof. now intros [= ->]. Qed.

(* Closes one way through the body of the receive loop: the run is
   computed, and what is claimed of it is read off the events it logged. *)
Ltac close_branch :=
  do 4 eexists; split; [reflexivity |]; cbn;
  split; [repeat split |];
  split; [rewrite <- ?app_assoc; reflexivity |];
  cbn;
  split; [tauto |];
  split; [repeat constructor |];
  repeat split; try tauto;
  intros; repeat match goal with
                 | H : _ /\ _ |- _ => destruct H
                 | H : _ \/ _ |- _ => destruct H
                 | H : Ok _ = Ok _ |- _ => apply Ok_inj in H
                 end;
  try discriminate; try lia; try tauto; try congruence.

Lemma pruneCollection_step (jobsSuffix : string) (g : remoteMongoQueueGroup)
    (c : string) (st : PruneState) (w : World) :
  exists flow st' w' evs,
    pruneCollection jobsSuffix g c st w = ((flow, st'), w')
    /\ same_oracles w w'
    /\ log w' = (log w ++ evs)%list
    /\ In (EvCountDocuments c (recent g w)) evs
    /\ Forall (about c) evs
    /\ (In (EvDrop c) evs <-> idle g w c)
    /\ (collections w' = collections w
        \/ (idle g w c /\ collections w' = without c (collections w)))
    /\ (idle g w c -> dropFailure w c = None ->
        collections w' = without c (collections w)).
Proof.
  unfold idle. rewrite !count_eq.
  unfold pruneCollection, CountDocuments, Drop, recent, bind, emit, ret, Now. cbn.
  pose proof (countOf_nonneg (RecentlyCompleted (clock w - ttl g))
                (documents c (collections w))) as Hr.
  pose proof (countOf_nonneg NotCompleted (documents c (collections w))) as Hn.
  fold (countOf (RecentlyCompleted (clock w - ttl g)) (documents c (collections w))).
  fold (countOf NotCompleted (documents c (collections w))).
  destruct (countFailure w c (RecentlyCompleted (clock w - ttl g))) as [e1 |];
    [close_branch |].
  destruct (Z.ltb_spec 0 (countOf (RecentlyCompleted (clock w - ttl g))
                            (documents c (collections w)))) as [Hpos | Hzero];
    [close_branch |].
  cbn.
  destruct (countFailure w c NotCompleted) as [e2 |]; [close_branch |].
  fold (countOf NotCompleted (documents c (collections w))).
  destruct (Z.ltb_spec 0 (countOf NotCompleted (documents c (collections w))))
    as [Hpos | Hzero2]; [close_branch |].
  assert (E1 : countOf (RecentlyCompleted (clock w - ttl g))
                 (documents c (collections w)) = 0) by lia.
  assert (E2 : countOf NotCompleted (documents c (collections w)) = 0) by lia.
  rewrite E1, E2.
  destruct (queues g !! g_idFromCollection jobsSuffix g c) as [q |]; cbn;
    destruct (dropFailure w c) as [e3 |]; close_branch.
Qed.

(* --------------------------------------------------------------------- *)
(* The pool of goroutines                                                 *)
(* --------------------------------------------------------------------- *)

Lemma kept_refl (g : remoteMongoQueueGroup) (w : World) : kept g w w.
Proof. split; [apply same_oracles_refl | now left]. Qed.

Lemma kept_count (g : remoteMongoQueueGroup) (w0 w : World) (c : string) :
  kept g w0 w ->
  recent g w = recent g w0
  /\ count w c (recent g w0) = count w0 c (recent g w0)
  /\ count w c NotCompleted = count w0 c NotCompleted.
Proof.
  intros [(Hclock & _ & _ & Hcf & _) Hdocs].
  split; [unfold recent; now rewrite Hclock |].
  rewrite !count_eq, Hcf.
  destruct (Hdocs c) as [-> | [Hnil [H1 H2]]]; [now split |].
  rewrite count_eq in H1, H2. rewrite Hnil.
  destruct (countFailure w0 c (recent g w0)); [discriminate |].
  destruct (countFailure w0 c NotCompleted); [discriminate |].
  rewrite H1, H2. now split.
Qed.

Lemma kept_idle (g : remoteMongoQueueGroup) (w0 w : World) (c : string) :
  kept g w0 w -> (idle g w c <-> idle g w0 c).
Proof.
  intros Hk. destruct (kept_count g w0 w c Hk) as (Hr & H1 & H2).
  unfold idle. now rewrite Hr, H1, H2.
Qed.

Lemma kept_step (g : remoteMongoQueueGroup) (w0 w w' : World) (c : string) :
  kept g w0 w ->
  same_oracles w w' ->
  (collections w' = collections w
   \/ (idle g w c /\ collections w' = without c (collections w))) ->
  kept g w0 w'.
Proof.
  intros Hk Hs Hc. pose proof Hk as [Ho Hdocs].
  split; [eapply same_oracles_trans; eassumption |].
  intros c'. destruct Hc as [-> | [Hidle ->]]; [apply Hdocs |].
  destruct (String.eqb_spec c' c) as [-> | Hne].
  - right. split; [apply documents_without_eq |].
    now apply (kept_idle g w0 w c Hk).
  - rewrite (documents_without_ne c c' _ Hne). apply Hdocs.
Qed.

Lemma about_drop (c c' : string) (evs : list Event) :
  Forall (about c) evs -> In (EvDrop c') evs -> c' = c.
Proof.
  intros Hall Hin. rewrite Forall_forall in Hall.
  rewrite <- list_elem_of_In in Hin. exact (Hall _ Hin).
Qed.

Lemma about_count (c c' : string) (f : Filter) (evs : list Event) :
  Forall (about c) evs -> In (EvCountDocuments c' f) evs -> c' = c.
Proof.
  intros Hall Hin. rewrite Forall_forall in Hall.
  rewrite <- list_elem_of_In in Hin. exact (Hall _ Hin).
Qed.

Lemma pruneWorkers_pass (jobsSuffix : string) (g : remoteMongoQueueGroup) (w0 : World)
    (colls : list string) :
  forall (workers : nat) (st : PruneState) (w : World),
    kept g w0 w ->
    exists st' w' evs,
      pruneWorkers jobsSuffix g workers colls st w = (st', w')
      /\ kept g w0 w'
      /\ log w' = (log w ++ evs)%list
      /\ (forall c, In (EvDrop c) evs -> idle g w0 c)
      /\ (forall c, In (EvCountDocuments c (recent g w0)) evs -> idle g w0 c ->
                    In (EvDrop c) evs)
      /\ (forall c, In (EvDrop c) evs -> dropFailure w0 c = None ->
                    exists_collection c (collections w') = false)
      /\ (forall c, exists_collection c (collections w) = false ->
                    exists_collection c (collections w') = false)
      /\ Forall (fun e => exists c, about c e) evs.
Proof.
  induction colls as [| c rest IH]; intros workers st w Hk.
  - exists st, w, []. rewrite app_nil_r.
    split; [reflexivity |]. split; [exact Hk |]. split; [reflexivity |].
    split; [intros c [] |]. split; [intros c [] |]. split; [intros c [] |].
    split; [auto | constructor].
  - destruct workers as [| fewer].
    + exists st, w, []. rewrite app_nil_r.
      split; [reflexivity |]. split; [exact Hk |]. split; [reflexivity |].
      split; [intros c' [] |]. split; [intros c' [] |]. split; [intros c' [] |].
      split; [auto | constructor].
    + destruct (pruneCollection_step jobsSuffix g c st w)
        as (flow & st1 & w1 & evs1 & Hrun & Hs & Hlog & Hcount & Habout & Hdrop & Hcs & Hgone).
      pose proof (kept_step g w0 w w1 c Hk Hs Hcs) as Hk1.
      assert (IH' : exists st' w' evs,
                 (match flow with
                  | NextReceive => pruneWorkers jobsSuffix g (S fewer) rest st1
                  | Return => pruneWorkers jobsSuffix g fewer rest st1
                  end) w1 = (st', w')
                 /\ kept g w0 w'
                 /\ log w' = (log w1 ++ evs)%list
                 /\ (forall c, In (EvDrop c) evs -> idle g w0 c)
                 /\ (forall c, In (EvCountDocuments c (recent g w0)) evs -> idle g w0 c ->
                               In (EvDrop c) evs)
                 /\ (forall c, In (EvDrop c) evs -> dropFailure w0 c = None ->
                               exists_collection c (collections w') = false)
                 /\ (forall c, exists_collection c (collections w1) = false ->
                               exists_collection c (collections w') = false)
                 /\ Forall (fun e => exists c, about c e) evs).
      { destruct flow; apply IH; exact Hk1. }
      destruct IH' as (st' & w' & evs2 & Hrun2 & Hk' & Hlog2 & Hi & Hii & Hiii & Hiv & Hv).
      exists st', w', (evs1 ++ evs2)%list.
      assert (Hshrink : forall c', exists_collection c' (collections w) = false ->
                                   exists_collection c' (collections w1) = false).
      { intros c' Hc'. destruct Hcs as [-> | [_ ->]]; [exact Hc' |].
        now apply exists_without_shrinks. }
      destruct (kept_count g w0 w c Hk) as (Hrec & _).
      pose proof Hk as [(_ & _ & _ & _ & Hdf & _) _].
      split.
      { cbn [pruneWorkers]. rewrite (bind_run _ _ _ _ _ Hrun). now destruct flow. }
      split; [exact Hk' |].
      split; [rewrite Hlog2, Hlog; now rewrite app_assoc |].
      split.
      { intros c' Hin. apply in_app_or in Hin as [Hin | Hin]; [| now apply Hi].
        pose proof (about_drop c c' evs1 Habout Hin) as ->.
        apply (kept_idle g w0 w c Hk). apply Hdrop. exact Hin. }
      split.
      { intros c' Hin Hidle. apply in_or_app.
        apply in_app_or in Hin as [Hin | Hin]; [| right; now apply Hii].
        left. pose proof (about_count c c' _ evs1 Habout Hin) as ->.
        apply Hdrop. apply (kept_idle g w0 w c Hk). exact Hidle. }
      split.
      { intros c' Hin Hnf. apply in_app_or in Hin as [Hin | Hin]; [| now apply Hiii].
        pose proof (about_drop c c' evs1 Habout Hin) as ->.
        apply Hiv. rewrite Hgone; [apply exists_without_eq | apply Hdrop; exact Hin |].
        now rewrite Hdf. }
      split.
      { intros c' Hc'. now apply Hiv, Hshrink. }
      apply Forall_app. split; [| exact Hv].
      eapply Forall_impl; [exact Habout |]. intros e He. now exists c.
Qed.

(* --------------------------------------------------------------------- *)
(* A whole pass of Prune                                                  *)
(* --------------------------------------------------------------------- *)

Lemma since_app (w w' : World) (evs : list Event) :
  log w' = (log w ++ evs)%list -> since w w' = evs.
Proof.
  intros H. unfold since. rewrite H.
  rewrite skipn_app, skipn_all, Nat.sub_diag. reflexivity.
Qed.

Lemma getExistingCollections_world (p : string) (w : World) :
  snd (getExistingCollections p w)
  = set_log (log w ++ [EvListCollections ("^" ++ p ++ ".*")])%list w.
Proof.
  unfold getExistingCollections, bind, emit. cbn.
  destruct (listFailure w) as [[| | |] |]; reflexivity.
Qed.

Lemma closeRunners_run (qs : list (string * Queue)) :
  forall w, exists w' evs,
    closeRunners qs w = (tt, w')
    /\ log w' = (log w ++ evs)%list
    /\ collections w' = collections w
    /\ same_oracles w w'
    /\ Forall (fun e => exists q, e = EvRunnerClose q) evs.
Proof.
  induction qs as [| [id q] rest IH]; intros w.
  - exists w, []. rewrite app_nil_r. repeat split. constructor.
  - destruct (IH (set_log (log w ++ [EvRunnerClose q])%list w))
      as (w' & evs & Hrun & Hlog & Hcs & Hso & Hall).
    exists w', (EvRunnerClose q :: evs).
    split; [cbn [closeRunners]; unfold bind at 1; cbn; exact Hrun |].
    split; [rewrite Hlog; cbn; now rewrite <- app_assoc |].
    split; [exact Hcs |].
    split; [exact Hso |].
    constructor; [now exists q | exact Hall].
Qed.

Lemma matching_doc_counts (f : Filter) (d : Doc) (ds : list Doc) :
  In d ds -> matches f d = true -> 0 < countOf f ds.
Proof.
  intros Hin Hm. unfold countOf.
  assert (Hf : In d (List.filter (matches f) ds)) by (apply filter_In; now split).
  destruct (List.filter (matches f) ds); [destruct Hf | cbn; lia].
Qed.

Lemma busy_not_idle (g : remoteMongoQueueGroup) (w : World) (c : string) (d : Doc) :
  In d (documents c (collections w)) ->
  matches NotCompleted d = true \/ matches (recent g w) d = true ->
  ~ idle g w c.
Proof.
  intros Hin Hm [H1 H2]. rewrite count_eq in H1, H2.
  destruct Hm as [Hm | Hm].
  - pose proof (matching_doc_counts _ _ _ Hin Hm) as Hpos.
    destruct (countFailure w c NotCompleted); [discriminate |].
    apply Ok_inj in H2. lia.
  - pose proof (matching_doc_counts _ _ _ Hin Hm) as Hpos.
    destruct (countFailure w c (recent g w)); [discriminate |].
    apply Ok_inj in H1. lia.
Qed.

Lemma Prune_pass (jobsSuffix : string) (NumCPU : nat) (g : remoteMongoQueueGroup)
    (w : World) :
  exists err g' w' evs,
    Prune jobsSuffix NumCPU g w = ((err, g'), w')
    /\ log w' = (log w ++ evs)%list
    /\ kept g w w'
    /\ (forall c, In (EvDrop c) evs -> idle g w c)
    /\ (forall c, In (EvCountDocuments c (recent g w)) evs -> idle g w c ->
                  In (EvDrop c) evs)
    /\ (forall c, In (EvDrop c) evs -> dropFailure w c = None ->
                  exists_collection c (collections w') = false).
Proof.
  unfold Prune. unfold bind at 1.
  pose proof (getExistingCollections_world (prefix g) w) as Hw1.
  destruct (getExistingCollections (prefix g) w) as [[colls | err] w1]; cbn [snd] in Hw1.
  - unfold bind at 1. cbn [Now].
    assert (Hk1 : kept g w w1).
    { subst w1. split; [repeat split | now left]. }
    destruct (pruneWorkers_pass jobsSuffix g w
                (List.filter (needsCheck jobsSuffix g (clock w1)) colls)
                NumCPU {| catcher := []; collsDeleteChan := [] |} w1 Hk1)
      as (st & w2 & evs & Hrun & Hk2 & Hlog & Hi & Hii & Hiii & _ & Hv).
    rewrite (bind_run _ _ _ _ _ Hrun).
    destruct (closeRunners_run
                (unchecked jobsSuffix (evictAll (collsDeleteChan st) g)
                   (List.filter (needsCheck jobsSuffix g (clock w1)) colls)) w2)
      as (w3 & evsC & HrunC & HlogC & HcsC & HsoC & HallC).
    rewrite (bind_run _ _ _ _ _ HrunC).
    assert (HnoDrop : forall c, ~ In (EvDrop c) evsC).
    { intros c Hin. rewrite Forall_forall in HallC.
      rewrite <- list_elem_of_In in Hin.
      destruct (HallC _ Hin) as [q Hq]. discriminate. }
    assert (HnoCount : forall c f, ~ In (EvCountDocuments c f) evsC).
    { intros c f Hin. rewrite Forall_forall in HallC.
      rewrite <- list_elem_of_In in Hin.
      destruct (HallC _ Hin) as [q Hq]. discriminate. }
    do 3 eexists.
    exists (EvListCollections ("^" ++ prefix g ++ ".*") :: evs ++ evsC)%list.
    split; [reflexivity |].
    split.
    { rewrite HlogC, Hlog, Hw1. cbn. now rewrite <- !app_assoc. }
    split.
    { destruct Hk2 as [Ho Hd]. split; [eapply same_oracles_trans; eassumption |].
      intros c. rewrite HcsC. apply Hd. }
    split.
    { intros c [Hin | Hin]; [discriminate |].
      apply in_app_or in Hin as [Hin | Hin]; [now apply Hi | now apply HnoDrop in Hin]. }
    split.
    { intros c [Hin | Hin] Hidle; [discriminate |]. right. apply in_or_app. left.
      apply in_app_or in Hin as [Hin | Hin]; [now apply Hii | now apply HnoCount in Hin]. }
    intros c [Hin | Hin] Hnf; [discriminate |].
    rewrite HcsC.
    apply in_app_or in Hin as [Hin | Hin]; [now apply Hiii | now apply HnoDrop in Hin].
  - exists (Some (Wrap err "problem getting collections")), g, w1,
      [EvListCollections ("^" ++ prefix g ++ ".*")].
    split; [reflexivity |].
    split; [now subst w1 |].
    split; [subst w1; split; [repeat split | now left] |].
    split; [intros c [Hin | []]; discriminate |].
    split; [intros c [Hin | []]; discriminate |].
    intros c [Hin | []]; discriminate.
Qed.

(* What holds of a collection a goroutine does receive: once its first
   count is issued it is dropped if and only if both counts answer zero; and
   of any collection: one holding a document that is not completed, or one
   completed within the last ttl, is never dropped and keeps its documents.
   Which collections are received is another matter, settled at the end of
   this file. *)
Lemma Prune_drops_exactly_idle (jobsSuffix : string) (NumCPU : nat)
    (g : remoteMongoQueueGroup) (w : World) (coll : string) :
  let w' := snd (Prune jobsSuffix NumCPU g w) in
  (In (EvCountDocuments coll (recent g w)) (since w w') ->
   (In (EvDrop coll) (since w w')
    <-> count w coll (RecentlyCompleted (clock w - ttl g)) = Ok 0
        /\ count w coll NotCompleted = Ok 0))
  /\ (forall d,
        In d (documents coll (collections w)) ->
        (completed d = false
         \/ (completed d = true /\ in_prog d = false /\ clock w - ttl g <= mod_ts d)) ->
        ~ In (EvDrop coll) (since w w')
        /\ documents coll (collections w') = documents coll (collections w))
  /\ (In (EvCountDocuments coll (recent g w)) (since w w') ->
      documents coll (collections w) = [] ->
      countFailure w coll (recent g w) = None ->
      countFailure w coll NotCompleted = None ->
      In (EvDrop coll) (since w w')
      /\ (dropFailure w coll = None ->
          exists_collection coll (collections w') = false)).
Proof.
  destruct (Prune_pass jobsSuffix NumCPU g w)
    as (err & g' & w1 & evs & Hrun & Hlog & Hk & Hi & Hii & Hiii).
  rewrite Hrun. cbn [snd]. cbv zeta.
  rewrite (since_app w w1 evs Hlog).
  split; [| split].
  - intros Hex. split; [apply Hi | now apply Hii].
  - intros d Hin Hbusy.
    assert (Hnot : ~ idle g w coll).
    { apply (busy_not_idle g w coll d Hin).
      destruct Hbusy as [Hc | (Hc & Hp & Ht)].
      - left. cbn. now rewrite Hc.
      - right. cbn. rewrite Hc, Hp. cbn. apply Z.leb_le. exact Ht. }
    split.
    + intros Hdrop. apply Hnot. now apply Hi.
    + destruct Hk as [_ Hd]. destruct (Hd coll) as [E | [_ Hidle]]; [exact E |].
      contradiction.
  - intros Hex Hnil Hf1 Hf2.
    assert (Hidle : idle g w coll).
    { unfold idle. rewrite !count_eq, Hf1, Hf2, Hnil. now split. }
    split; [now apply Hii | intros Hnf; apply Hiii; [now apply Hii | exact Hnf]].
Qed.

Lemma Prune_drops_exactly_idle_witness :
  let g := group (fun n => Ok (queue n)) ∅ ∅ in
  let w := mixed (5 * hour) in
  let w' := snd (Prune ".jobs" 4 g w) in
  (In (EvDrop "svc.empty.jobs") (since w w')
   /\ exists_collection "svc.empty.jobs" (collections w') = false)
  /\ (~ In (EvDrop "svc.busy.jobs") (since w w')
      /\ documents "svc.busy.jobs" (collections w') = [pending])
  /\ (~ In (EvDrop "svc.done.jobs") (since w w')
      /\ documents "svc.done.jobs" (collections w') = [finished (5 * hour - hour / 2)])
  /\ (In (EvDrop "svc.busy.jobs") (since w w')
      <-> count w "svc.busy.jobs" (RecentlyCompleted (clock w - ttl g)) = Ok 0
          /\ count w "svc.busy.jobs" NotCompleted = Ok 0).
Proof.
  cbv zeta.
  split; [| split; [| split]].
  - destruct (Prune_drops_exactly_idle ".jobs" 4 (group (fun n => Ok (queue n)) ∅ ∅)
                (mixed (5 * hour)) "svc.empty.jobs") as (_ & _ & Hempty).
    destruct Hempty as [Hdrop Hgone];
      [vm_compute; tauto | reflexivity | reflexivity | reflexivity |].
    split; [exact Hdrop | apply Hgone; reflexivity].
  - destruct (Prune_drops_exactly_idle ".jobs" 4 (group (fun n => Ok (queue n)) ∅ ∅)
                (mixed (5 * hour)) "svc.busy.jobs") as (_ & Hbusy & _).
    apply (Hbusy pending); [left; reflexivity | left; reflexivity].
  - destruct (Prune_drops_exactly_idle ".jobs" 4 (group (fun n => Ok (queue n)) ∅ ∅)
                (mixed (5 * hour)) "svc.done.jobs") as (_ & Hdone & _).
    apply (Hdone (finished (5 * hour - hour / 2))); [left; reflexivity |].
    right. repeat split. vm_compute. discriminate.
  - destruct (Prune_drops_exactly_idle ".jobs" 4 (group (fun n => Ok (queue n)) ∅ ∅)
                (mixed (5 * hour)) "svc.busy.jobs") as (Hiff & _ & _).
    apply Hiff. vm_compute. tauto.
Defined.

(* --------------------------------------------------------------------- *)
(* The second pass of Prune                                               *)
(* --------------------------------------------------------------------- *)

Lemma prefix_evictAll (ch : list string) (g : remoteMongoQueueGroup) :
  prefix (evictAll ch g) = prefix g.
Proof.
  revert g. induction ch as [| id ch IH]; intros g; cbn; [reflexivity |].
  now rewrite IH.
Qed.

Lemma evictAll_absent (ch : list string) (id : string) :
  forall g,
    queues g !! id = None -> ttlMap g !! id = None ->
    queues (evictAll ch g) !! id = None /\ ttlMap (evictAll ch g) !! id = None.
Proof.
  induction ch as [| x ch IH]; intros g Hq Ht; cbn; [now split |].
  apply IH; cbn.
  - destruct (decide (x = id)) as [-> | Hne];
      [apply lookup_delete_eq | now rewrite lookup_delete_ne].
  - destruct (decide (x = id)) as [-> | Hne];
      [apply lookup_delete_eq | now rewrite lookup_delete_ne].
Qed.

Lemma evictAll_sent (ch : list string) (id : string) :
  forall g,
    In id ch ->
    queues (evictAll ch g) !! id = None /\ ttlMap (evictAll ch g) !! id = None.
Proof.
  induction ch as [| x ch IH]; intros g Hin; [destruct Hin |].
  cbn. destruct Hin as [-> | Hin]; [| now apply IH].
  apply evictAll_absent; cbn; apply lookup_delete_eq.
Qed.

(* No collection on collsToCheck carries the id of a recently touched queue. *)
Lemma fresh_id_unchecked (jobsSuffix : string) (g g1 : remoteMongoQueueGroup)
    (now t : Z) (id : string) (colls : list string) :
  prefix g1 = prefix g ->
  ttlMap g !! id = Some t ->
  now - t <= ttl g ->
  checked jobsSuffix g1 (List.filter (needsCheck jobsSuffix g now) colls) id = false.
Proof.
  intros Hp Ht Hfresh. unfold checked.
  apply not_true_is_false. intros Hex.
  apply existsb_exists in Hex as (coll & Hin & Heq).
  apply filter_In in Hin as [_ Hneeds].
  apply String.eqb_eq in Heq.
  unfold needsCheck in Hneeds. unfold g_idFromCollection in Heq, Hneeds.
  rewrite Hp in Heq. rewrite <- Heq, Ht in Hneeds.
  apply Z.ltb_lt in Hneeds. lia.
Qed.

(* The manager a pass hands back when the listing succeeds: the ids sent
   by the goroutines are evicted, then those of the unchecked queues. *)
Lemma Prune_manager (jobsSuffix : string) (NumCPU : nat)
    (g : remoteMongoQueueGroup) (w : World) :
  listFailure w = None ->
  exists colls st,
    snd (fst (Prune jobsSuffix NumCPU g w))
    = evictAll
        (List.map fst
           (unchecked jobsSuffix (evictAll (collsDeleteChan st) g)
              (List.filter (needsCheck jobsSuffix g (clock w)) colls)))
        (evictAll (collsDeleteChan st) g).
Proof.
  intros Hlist. unfold Prune, bind.
  assert (Hl : exists colls w1,
             getExistingCollections (prefix g) w = (Ok colls, w1) /\ clock w1 = clock w).
  { unfold getExistingCollections, bind, emit. cbn. rewrite Hlist. eauto. }
  destruct Hl as (colls & w1 & -> & Hclock). cbn [Now]. rewrite Hclock.
  destruct (pruneWorkers jobsSuffix g NumCPU
              (List.filter (needsCheck jobsSuffix g (clock w)) colls)
              {| catcher := []; collsDeleteChan := [] |} w1) as [st w2].
  destruct (closeRunners _ w2) as [u w3]. cbn.
  now exists colls, st.
Qed.

(* Eviction keeps the two maps together on every id. *)
Lemma evictAll_together (ch : list string) (id : string) :
  forall g,
    (queues g !! id = None <-> ttlMap g !! id = None) ->
    (queues (evictAll ch g) !! id = None <-> ttlMap (evictAll ch g) !! id = None).
Proof.
  induction ch as [| x ch IH]; intros g Hg; cbn; [exact Hg |].
  apply IH. cbn.
  destruct (decide (x = id)) as [-> | Hne].
  - now rewrite !lookup_delete_eq.
  - now rewrite !lookup_delete_ne.
Qed.

(* Whatever the store holds, a pass whose listing succeeds leaves no
   recently touched id in the registry or in the last-access map. *)
Lemma Prune_evicts_every_fresh_id (jobsSuffix : string) (NumCPU : nat)
    (g : remoteMongoQueueGroup) (w : World) (id : string) (q : Queue) (t : Z) :
  queues g !! id = Some q ->
  ttlMap g !! id = Some t ->
  clock w - t <= ttl g ->
  listFailure w = None ->
  queues (snd (fst (Prune jobsSuffix NumCPU g w))) !! id = None
  /\ ttlMap (snd (fst (Prune jobsSuffix NumCPU g w))) !! id = None.
Proof.
  intros Hq Ht Hfresh Hlist.
  destruct (Prune_manager jobsSuffix NumCPU g w Hlist) as (colls & st & ->).
  set (cs := List.filter (needsCheck jobsSuffix g (clock w)) colls).
  set (g1 := evictAll (collsDeleteChan st) g).
  assert (Htog : queues g1 !! id = None <-> ttlMap g1 !! id = None).
  { apply evictAll_together. rewrite Hq, Ht. split; discriminate. }
  destruct (queues g1 !! id) as [q1 |] eqn:Hq1.
  - apply evictAll_sent. apply in_map_iff. exists (id, q1). split; [reflexivity |].
    unfold unchecked. apply filter_In. split.
    + apply list_elem_of_In, elem_of_map_to_list. exact Hq1.
    + cbn. unfold cs.
      rewrite (fresh_id_unchecked jobsSuffix g g1 (clock w) t id colls);
        [reflexivity | apply prefix_evictAll | exact Ht | exact Hfresh].
  - apply evictAll_absent; [exact Hq1 | now apply Htog].
Qed.

(* --------------------------------------------------------------------- *)
(* Get and Put together                                                   *)
(* --------------------------------------------------------------------- *)

Lemma Get_Ok_registered (jobsSuffix : string) (g g1 : remoteMongoQueueGroup)
    (id : string) (w w1 : World) (q : Queue) :
  Get jobsSuffix g id w = ((Ok q, g1), w1) -> queues g1 !! id = Some q.
Proof.
  unfold Get. destruct (queues g !! id) as [q0 |] eqn:Hq.
  - cbn. intros [= <- <- <-]. exact Hq.
  - unfold bind at 1.
    destruct (startProcessingRemoteQueue jobsSuffix g
                (g_collectionFromID jobsSuffix g id) w) as [[q1 | err] w2]; cbn.
    + intros [= <- <- <-]. cbn. apply lookup_insert_eq.
    + discriminate.
Qed.

Lemma Get_hit (jobsSuffix : string) (g : remoteMongoQueueGroup) (id : string)
    (w : World) (q : Queue) :
  queues g !! id = Some q ->
  Get jobsSuffix g id w = ((Ok q, touch id (clock w) g), w).
Proof. intros Hq. unfold Get. now rewrite Hq. Qed.

(** X1: a queue that Put has registered under an id is what Get answers for
    that id, from the registry alone: Get makes no call (the world, log
    included, is unchanged), keeps the registry and stamps the last
    access. *)
Theorem Put_then_Get (jobsSuffix : string) (g g1 : remoteMongoQueueGroup)
    (id : string) (queue : Queue) (w w1 w2 : World) :
  Put g id queue w = ((None, g1), w1) ->
  exists g2,
    Get jobsSuffix g1 id w2 = ((Ok queue, g2), w2)
    /\ queues g2 = queues g1
    /\ ttlMap g2 !! id = Some (clock w2).
Proof.
  intros HPut.
  assert (Hreg : queues g1 !! id = Some queue).
  { revert HPut. unfold Put. destruct (queues g !! id); cbn; [discriminate |].
    intros [= <- <-]. cbn. apply lookup_insert_eq. }
  exists (touch id (clock w2) g1).
  rewrite (Get_hit jobsSuffix g1 id w2 queue Hreg).
  repeat split. cbn. apply lookup_insert_eq.
Qed.

Lemma Put_then_Get_witness :
  exists g1 g2,
    Put (group (fun n => Ok (queue n)) ∅ ∅) "beta" (queue 2) (world 9 [])
    = ((None, g1), world 9 [])
    /\ Get ".jobs" g1 "beta" (world 20 []) = ((Ok (queue 2), g2), world 20 [])
    /\ queues g2 = queues g1
    /\ ttlMap g2 !! "beta" = Some 20.
Proof.
  assert (HPut : exists g1,
             Put (group (fun n => Ok (queue n)) ∅ ∅) "beta" (queue 2) (world 9 [])
             = ((None, g1), world 9 [])) by (eexists; reflexivity).
  destruct HPut as (g1 & HPut).
  destruct (Put_then_Get ".jobs" _ g1 "beta" (queue 2) _ _ (world 20 []) HPut)
    as (g2 & HGet & Hq & Ht).
  exists g1, g2. auto.
Defined.

(** X2: once Get has answered a queue for an id, the next Get for that id
    answers the same queue without constructing anything: no call is made
    (the world is unchanged) and the registry stays as it is. *)
Theorem Get_then_Get (jobsSuffix : string) (g g1 : remoteMongoQueueGroup)
    (id : string) (q : Queue) (w w1 w2 : World) :
  Get jobsSuffix g id w = ((Ok q, g1), w1) ->
  exists g2,
    Get jobsSuffix g1 id w2 = ((Ok q, g2), w2)
    /\ queues g2 = queues g1.
Proof.
  intros HGet.
  pose proof (Get_Ok_registered jobsSuffix g g1 id w w1 q HGet) as Hreg.
  exists (touch id (clock w2) g1).
  rewrite (Get_hit jobsSuffix g1 id w2 q Hreg). repeat split.
Qed.

Lemma Get_then_Get_witness :
  exists g1 w1 g2,
    Get ".jobs" (group (fun n => Ok (queue n)) ∅ ∅) "alpha" (world 50 [])
    = ((Ok (queue 0), g1), w1)
    /\ constructed w1 = 1%nat
    /\ Get ".jobs" g1 "alpha" (set_log [] w1) = ((Ok (queue 0), g2), set_log [] w1)
    /\ queues g2 = queues g1.
Proof.
  assert (HGet : exists g1 w1,
             Get ".jobs" (group (fun n => Ok (queue n)) ∅ ∅) "alpha" (world 50 [])
             = ((Ok (queue 0), g1), w1) /\ constructed w1 = 1%nat)
    by (do 2 eexists; split; reflexivity).
  destruct HGet as (g1 & w1 & HGet & Hn).
  destruct (Get_then_Get ".jobs" _ g1 "alpha" (queue 0) _ w1 (set_log [] w1) HGet)
    as (g2 & HGet2 & Hq).
  exists g1, w1, g2. auto.
Defined.

(** X3: Get and Put on one id leave every other id as it was, in the
    registry and in the last-access map, whether they succeed or fail. *)
Theorem Get_Put_other_ids (jobsSuffix : string) (g : remoteMongoQueueGroup)
    (id id' : string) (queue : Queue) (w : World) :
  id <> id' ->
  (queues (snd (fst (Get jobsSuffix g id w))) !! id' = queues g !! id'
   /\ ttlMap (snd (fst (Get jobsSuffix g id w))) !! id' = ttlMap g !! id')
  /\ (queues (snd (fst (Put g id queue w))) !! id' = queues g !! id'
      /\ ttlMap (snd (fst (Put g id queue w))) !! id' = ttlMap g !! id').
Proof.
  intros Hne. split.
  - unfold Get. destruct (queues g !! id) as [q0 |] eqn:Hq.
    + cbn. split; [reflexivity | now rewrite lookup_insert_ne].
    + unfold bind.
      destruct (startProcessingRemoteQueue jobsSuffix g
                  (g_collectionFromID jobsSuffix g id) w) as [[q1 | err] w1]; cbn.
      * now rewrite !lookup_insert_ne.
      * now split.
  - unfold Put. destruct (queues g !! id) as [q0 |]; cbn.
    + now split.
    + now rewrite !lookup_insert_ne.
Qed.

Lemma Get_Put_other_ids_witness :
  let g := group (fun n => Ok (queue n)) {["alpha" := queue 7]} {["alpha" := 3]} in
  (queues (snd (fst (Get ".jobs" g "beta" (world 50 [])))) !! "alpha" = queues g !! "alpha"
   /\ ttlMap (snd (fst (Get ".jobs" g "beta" (world 50 [])))) !! "alpha"
      = ttlMap g !! "alpha")
  /\ (queues (snd (fst (Put g "beta" (queue 8) (world 50 [])))) !! "alpha"
      = queues g !! "alpha"
      /\ ttlMap (snd (fst (Put g "beta" (queue 8) (world 50 [])))) !! "alpha"
         = ttlMap g !! "alpha").
Proof.
  apply (Get_Put_other_ids ".jobs"). discriminate.
Defined.

(* --------------------------------------------------------------------- *)
(* What a pass touches                                                    *)
(* --------------------------------------------------------------------- *)

(* Closes one way through the body of the receive loop, for the lemma on
   what the body touches. *)
Ltac close_effects :=
  do 4 eexists; split; [reflexivity |]; cbn;
  split; [repeat split |];
  split; [rewrite <- ?app_assoc; reflexivity |];
  split; [repeat (constructor; [naive_solver |]); constructor |];
  split; [first [left; reflexivity | right; split; [reflexivity | eauto]] |];
  split; [first [left; reflexivity
                | right; eexists; split; [reflexivity | naive_solver]] |];
  first [left; reflexivity | right; split; [cbn; tauto | reflexivity]].

Lemma pruneCollection_effects (jobsSuffix : string) (g : remoteMongoQueueGroup)
    (c : string) (st : PruneState) (w : World) :
  exists flow st' w' evs,
    pruneCollection jobsSuffix g c st w = ((flow, st'), w')
    /\ same_oracles w w'
    /\ log w' = (log w ++ evs)%list
    /\ Forall (fun e =>
                 (exists f, e = EvCountDocuments c f)
                 \/ e = EvDrop c
                 \/ (exists q, e = EvRunnerClose q
                               /\ queues g !! g_idFromCollection jobsSuffix g c = Some q))
              evs
    /\ (collsDeleteChan st' = collsDeleteChan st
        \/ (collsDeleteChan st'
            = (collsDeleteChan st ++ [g_idFromCollection jobsSuffix g c])%list
            /\ is_Some (queues g !! g_idFromCollection jobsSuffix g c)))
    /\ (catcher st' = catcher st
        \/ exists err,
             catcher st' = (catcher st ++ [err])%list
             /\ ((exists f, countFailure w c f = Some err) \/ dropFailure w c = Some err))
    /\ (collections w' = collections w
        \/ (In (EvDrop c) evs /\ collections w' = without c (collections w))).
Proof.
  unfold pruneCollection, CountDocuments, Drop, bind, emit, ret, Now. cbn.
  destruct (countFailure w c (RecentlyCompleted (clock w - ttl g))) as [e1 |] eqn:Hf1;
    [close_effects |].
  destruct (0 <? _); [close_effects |]. cbn.
  destruct (countFailure w c NotCompleted) as [e2 |] eqn:Hf2; [close_effects |].
  destruct (0 <? _); [close_effects |].
  destruct (queues g !! g_idFromCollection jobsSuffix g c) as [q |] eqn:Hq; cbn;
    destruct (dropFailure w c) as [e3 |] eqn:Hf3; close_effects.
Qed.

Lemma exists_without_ne (c c' : string) (cs : list (string * list Doc)) :
  c' <> c -> exists_collection c' (without c cs) = exists_collection c' cs.
Proof.
  intros Hne. unfold exists_collection, without.
  induction cs as [| [n ds] cs IH]; cbn; [reflexivity |].
  destruct (String.eqb_spec n c) as [-> | Hn]; cbn.
  - destruct (String.eqb_spec c c') as [E | _]; [congruence | exact IH].
  - now rewrite IH.
Qed.

Lemma pruneWorkers_effects (jobsSuffix : string) (g : remoteMongoQueueGroup)
    (colls : list string) :
  forall (workers : nat) (st : PruneState) (w : World),
    exists st' w' evs,
      pruneWorkers jobsSuffix g workers colls st w = (st', w')
      /\ same_oracles w w'
      /\ log w' = (log w ++ evs)%list
      /\ Forall (fun e =>
                   exists c, In c colls
                     /\ ((exists f, e = EvCountDocuments c f)
                         \/ e = EvDrop c
                         \/ (exists q, e = EvRunnerClose q
                               /\ queues g !! g_idFromCollection jobsSuffix g c = Some q)))
                evs
      /\ (forall i, In i (collsDeleteChan st') ->
            In i (collsDeleteChan st)
            \/ exists c, In c colls /\ i = g_idFromCollection jobsSuffix g c
                         /\ is_Some (queues g !! i))
      /\ (forall e, In e (catcher st') ->
            In e (catcher st)
            \/ exists c, In c colls
                 /\ ((exists f, countFailure w c f = Some e) \/ dropFailure w c = Some e))
      /\ (forall c, ~ In (EvDrop c) evs ->
            documents c (collections w') = documents c (collections w)
            /\ exists_collection c (collections w')
               = exists_collection c (collections w)).
Proof.
  induction colls as [| c rest IH]; intros workers st w.
  - exists st, w, []. rewrite app_nil_r.
    split; [reflexivity |]. split; [apply same_oracles_refl |].
    split; [reflexivity |]. split; [constructor |].
    split; [auto |]. split; [auto |]. now split.
  - destruct workers as [| fewer].
    + exists st, w, []. rewrite app_nil_r.
      split; [reflexivity |]. split; [apply same_oracles_refl |].
      split; [reflexivity |]. split; [constructor |].
      split; [auto |]. split; [auto |]. now split.
    + destruct (pruneCollection_effects jobsSuffix g c st w)
        as (flow & st1 & w1 & evs1 & Hrun & Hso & Hlog & Hev & Hch & Hcat & Hcs).
      destruct (IH (match flow with NextReceive => S fewer | Return => fewer end) st1 w1)
        as (st' & w' & evs2 & Hrun2 & Hso2 & Hlog2 & Hev2 & Hch2 & Hcat2 & Hcs2).
      exists st', w', (evs1 ++ evs2)%list.
      pose proof Hso as (_ & _ & _ & Hcf & Hdf & _).
      split.
      { cbn [pruneWorkers]. rewrite (bind_run _ _ _ _ _ Hrun). now destruct flow. }
      split; [eapply same_oracles_trans; eassumption |].
      split; [rewrite Hlog2, Hlog; now rewrite app_assoc |].
      split.
      { apply Forall_app. split.
        - eapply Forall_impl; [exact Hev |]. intros e He. exists c. split; [now left | exact He].
        - eapply Forall_impl; [exact Hev2 |]. intros e (c' & Hin & He).
          exists c'. split; [now right | exact He]. }
      split.
      { intros i Hi. destruct (Hch2 i Hi) as [Hi1 | (c' & Hin & -> & Hsome)].
        - destruct Hch as [E | [E Hsome]].
          + left. now rewrite <- E.
          + rewrite E in Hi1. apply in_app_or in Hi1 as [Hi1 | [<- | []]]; [now left |].
            right. exists c. split; [now left | now split].
        - right. exists c'. split; [now right | now split]. }
      split.
      { intros e He. destruct (Hcat2 e He) as [He1 | (c' & Hin & Hfail)].
        - destruct Hcat as [E | (err & E & Hfail)].
          + left. now rewrite <- E.
          + rewrite E in He1. apply in_app_or in He1 as [He1 | [<- | []]]; [now left |].
            right. exists c. split; [now left | exact Hfail].
        - right. exists c'. split; [now right |].
          now rewrite <- Hcf, <- Hdf. }
      intros c' Hno.
      assert (Hno1 : ~ In (EvDrop c') evs1) by (intros H; apply Hno, in_or_app; now left).
      assert (Hno2 : ~ In (EvDrop c') evs2) by (intros H; apply Hno, in_or_app; now right).
      destruct (Hcs2 c' Hno2) as [Hd2 He2]. rewrite Hd2, He2.
      destruct Hcs as [-> | [Hin ->]]; [now split |].
      assert (Hne : c' <> c) by (intros ->; contradiction).
      split; [now apply documents_without_ne | now apply exists_without_ne].
Qed.

Lemma closeRunners_log (qs : list (string * Queue)) :
  forall w, exists w',
    closeRunners qs w = (tt, w')
    /\ log w' = (log w ++ List.map (fun p => EvRunnerClose (snd p)) qs)%list
    /\ collections w' = collections w
    /\ same_oracles w w'.
Proof.
  induction qs as [| [id q] rest IH]; intros w.
  - exists w. cbn. rewrite app_nil_r. repeat split.
  - destruct (IH (set_log (log w ++ [EvRunnerClose q])%list w))
      as (w' & Hrun & Hlog & Hcs & Hso).
    exists w'.
    split; [cbn [closeRunners]; unfold bind at 1; cbn; exact Hrun |].
    split; [rewrite Hlog; cbn; now rewrite <- app_assoc |].
    split; [exact Hcs | exact Hso].
Qed.

(* The store's answer to the listing of a manager's collections. *)
Lemma getExistingCollections_ok (p : string) (w : World) :
  listFailure w = None ->
  getExistingCollections p w
  = (Ok (List.filter (regexMatch w ("^" ++ p ++ ".*")) (List.map fst (collections w))),
     set_log (log w ++ [EvListCollections ("^" ++ p ++ ".*")])%list w).
Proof.
  intros Hlist. unfold getExistingCollections, bind, emit. cbn. now rewrite Hlist.
Qed.

(* A pass whose listing succeeds, laid out: the goroutines run over the
   collections to check, the ids they sent are evicted, the unchecked queues
   are closed and evicted. *)
Lemma Prune_anatomy (jobsSuffix : string) (NumCPU : nat) (g : remoteMongoQueueGroup)
    (w : World) :
  listFailure w = None ->
  exists st w2 w3,
    pruneWorkers jobsSuffix g NumCPU
      (List.filter (needsCheck jobsSuffix g (clock w))
         (List.filter (regexMatch w ("^" ++ prefix g ++ ".*"))
            (List.map fst (collections w))))
      {| catcher := []; collsDeleteChan := [] |}
      (set_log (log w ++ [EvListCollections ("^" ++ prefix g ++ ".*")])%list w)
    = (st, w2)
    /\ Prune jobsSuffix NumCPU g w
       = ((Resolve (catcher st),
           evictAll
             (List.map fst
                (unchecked jobsSuffix (evictAll (collsDeleteChan st) g)
                   (List.filter (needsCheck jobsSuffix g (clock w))
                      (List.filter (regexMatch w ("^" ++ prefix g ++ ".*"))
                         (List.map fst (collections w))))))
             (evictAll (collsDeleteChan st) g)), w3)
    /\ log w3
       = (log w2
          ++ List.map (fun p => EvRunnerClose (snd p))
               (unchecked jobsSuffix (evictAll (collsDeleteChan st) g)
                  (List.filter (needsCheck jobsSuffix g (clock w))
                     (List.filter (regexMatch w ("^" ++ prefix g ++ ".*"))
                        (List.map fst (collections w))))))%list
    /\ collections w3 = collections w2
    /\ same_oracles w2 w3.
Proof.
  intros Hlist. unfold Prune.
  rewrite (bind_run _ _ _ _ _ (getExistingCollections_ok (prefix g) w Hlist)).
  unfold bind at 1. cbn [Now clock set_log].
  destruct (pruneWorkers jobsSuffix g NumCPU _ _ _) as [st w2] eqn:Hrun.
  destruct (closeRunners_log
              (unchecked jobsSuffix (evictAll (collsDeleteChan st) g)
                 (List.filter (needsCheck jobsSuffix g (clock w))
                    (List.filter (regexMatch w ("^" ++ prefix g ++ ".*"))
                       (List.map fst (collections w))))) w2)
    as (w3 & HrunC & HlogC & HcsC & HsoC).
  exists st, w2, w3.
  split; [reflexivity |].
  split; [| split; [exact HlogC | split; [exact HcsC | exact HsoC]]].
  rewrite (bind_run _ _ _ _ _ Hrun).
  now rewrite (bind_run _ _ _ _ _ HrunC).
Qed.

Lemma Prune_ok_pass (jobsSuffix : string) (NumCPU : nat) (g : remoteMongoQueueGroup)
    (w : World) :
  listFailure w = None ->
  exists st w' evs,
    Prune jobsSuffix NumCPU g w
    = ((Resolve (catcher st),
        evictAll
          (List.map fst
             (unchecked jobsSuffix (evictAll (collsDeleteChan st) g)
                (collsToCheck jobsSuffix g w)))
          (evictAll (collsDeleteChan st) g)), w')
    /\ since w w'
       = (EvListCollections ("^" ++ prefix g ++ ".*") :: evs
          ++ List.map (fun p => EvRunnerClose (snd p))
               (unchecked jobsSuffix (evictAll (collsDeleteChan st) g)
                  (collsToCheck jobsSuffix g w)))%list
    /\ Forall (worker_event jobsSuffix g (collsToCheck jobsSuffix g w)) evs
    /\ (forall i, In i (collsDeleteChan st) ->
          exists c, In c (collsToCheck jobsSuffix g w)
                    /\ i = g_idFromCollection jobsSuffix g c
                    /\ is_Some (queues g !! i))
    /\ (forall e, In e (catcher st) ->
          exists c, In c (collsToCheck jobsSuffix g w)
               /\ ((exists f, countFailure w c f = Some e) \/ dropFailure w c = Some e))
    /\ (forall c, ~ In (EvDrop c) evs ->
          documents c (collections w') = documents c (collections w)
          /\ exists_collection c (collections w') = exists_collection c (collections w))
    /\ same_oracles w w'.
Proof.
  intros Hlist.
  destruct (Prune_anatomy jobsSuffix NumCPU g w Hlist)
    as (st & w2 & w3 & Hrun & HPrune & Hlog3 & Hcs3 & Hso3).
  destruct (pruneWorkers_effects jobsSuffix g (collsToCheck jobsSuffix g w) NumCPU
              {| catcher := []; collsDeleteChan := [] |}
              (set_log (log w ++ [EvListCollections ("^" ++ prefix g ++ ".*")])%list w))
    as (st' & w2' & evs & Hrun' & Hso & Hlog & Hev & Hch & Hcat & Hdocs).
  unfold collsToCheck, listed in Hrun'. rewrite Hrun in Hrun'.
  injection Hrun' as <- <-.
  exists st, w3, evs.
  split; [exact HPrune |].
  split.
  { apply since_app. rewrite Hlog3, Hlog. cbn. now rewrite <- !app_assoc. }
  split; [exact Hev |].
  split.
  { intros i Hi. destruct (Hch i Hi) as [[] | H]. exact H. }
  split.
  { intros e He. destruct (Hcat e He) as [[] | H]. exact H. }
  split.
  { intros c Hno. rewrite Hcs3. now apply Hdocs. }
  eapply same_oracles_trans; [| exact Hso3].
  eapply same_oracles_trans; [| exact Hso]. repeat split.
Qed.

Lemma Prune_listing_fails (jobsSuffix : string) (NumCPU : nat)
    (g : remoteMongoQueueGroup) (w : World) (f : ListFailure) :
  listFailure w = Some f ->
  exists err,
    Prune jobsSuffix NumCPU g w
    = ((Some (Wrap err "problem getting collections"), g),
       set_log (log w ++ [EvListCollections ("^" ++ prefix g ++ ".*")])%list w).
Proof.
  intros Hlist. unfold Prune, getExistingCollections, bind, emit. cbn.
  rewrite Hlist. destruct f; eexists; reflexivity.
Qed.

Lemma evictAll_lookup_Some (ch : list string) (id : string) :
  forall g,
    (forall q, queues (evictAll ch g) !! id = Some q ->
               queues g !! id = Some q /\ ~ In id ch)
    /\ (forall t, ttlMap (evictAll ch g) !! id = Some t -> ttlMap g !! id = Some t).
Proof.
  induction ch as [| x ch IH]; intros g; cbn.
  - split; [intros q H; split; [exact H | tauto] | auto].
  - destruct (IH (evict x g)) as [IHq IHt]. split.
    + intros q H. destruct (IHq q H) as [Hq Hnin]. cbn in Hq.
      destruct (decide (x = id)) as [-> | Hne].
      * rewrite lookup_delete_eq in Hq. discriminate.
      * rewrite lookup_delete_ne in Hq by exact Hne. split; [exact Hq | tauto].
    + intros t H. pose proof (IHt t H) as Ht. cbn in Ht.
      destruct (decide (x = id)) as [-> | Hne].
      * rewrite lookup_delete_eq in Ht. discriminate.
      * now rewrite lookup_delete_ne in Ht.
Qed.

Lemma evictAll_lookup_notin (ch : list string) (id : string) :
  forall g, ~ In id ch -> queues (evictAll ch g) !! id = queues g !! id.
Proof.
  induction ch as [| x ch IH]; intros g Hnin; cbn; [reflexivity |].
  rewrite IH by (intros H; apply Hnin; now right). cbn.
  apply lookup_delete_ne. intros ->. apply Hnin. now left.
Qed.


Lemma Prune_lookup_sub (jobsSuffix : string) (NumCPU : nat)
    (g : remoteMongoQueueGroup) (w : World) (id : string) :
  (forall q, queues (snd (fst (Prune jobsSuffix NumCPU g w))) !! id = Some q ->
             queues g !! id = Some q)
  /\ (forall t, ttlMap (snd (fst (Prune jobsSuffix NumCPU g w))) !! id = Some t ->
                ttlMap g !! id = Some t).
Proof.
  destruct (listFailure w) as [f |] eqn:Hlist.
  - destruct (Prune_listing_fails jobsSuffix NumCPU g w f Hlist) as (err & ->).
    cbn. auto.
  - destruct (Prune_ok_pass jobsSuffix NumCPU g w Hlist) as (st & w' & evs & -> & _).
    cbn [fst snd]. split.
    + intros q H. apply evictAll_lookup_Some in H as [H _].
      now apply evictAll_lookup_Some in H as [H _].
    + intros t H. apply evictAll_lookup_Some in H.
      now apply evictAll_lookup_Some in H.
Qed.


(** X5: Prune only evicts. An id registered after a pass was registered
    before it with the same handle, and its last-access time, if it still
    has one, is the one it had. *)
Theorem Prune_only_evicts (jobsSuffix : string) (NumCPU : nat)
    (g : remoteMongoQueueGroup) (w : World) (id : string) :
  (forall q, queues (snd (fst (Prune jobsSuffix NumCPU g w))) !! id = Some q ->
             queues g !! id = Some q)
  /\ (forall t, ttlMap (snd (fst (Prune jobsSuffix NumCPU g w))) !! id = Some t ->
                ttlMap g !! id = Some t).
Proof. apply Prune_lookup_sub. Qed.

Lemma Prune_only_evicts_witness :
  let g := group (fun n => Ok (queue n)) {["alpha" := queue 7]} {["alpha" := 100]} in
  let w := world (100 + 2 * hour) [("svc.alpha.jobs", [pending])] in
  queues g !! "alpha" = Some (queue 7) /\ ttlMap g !! "alpha" = Some 100.
Proof.
  cbv zeta.
  destruct (Prune_only_evicts ".jobs" 2
              (group (fun n => Ok (queue n)) {["alpha" := queue 7]} {["alpha" := 100]})
              (world (100 + 2 * hour) [("svc.alpha.jobs", [pending])]) "alpha")
    as [Hq Ht].
  split; [apply Hq | apply Ht]; vm_compute; reflexivity.
Defined.

Lemma fresh_not_candidate (jobsSuffix : string) (g : remoteMongoQueueGroup) (w : World)
    (c : string) (t : Z) :
  ttlMap g !! g_idFromCollection jobsSuffix g c = Some t ->
  clock w - t <= ttl g ->
  ~ In c (collsToCheck jobsSuffix g w).
Proof.
  intros Ht Hfresh Hin. unfold collsToCheck in Hin.
  apply filter_In in Hin as [_ Hneeds].
  unfold needsCheck in Hneeds. rewrite Ht in Hneeds.
  apply Z.ltb_lt in Hneeds. lia.
Qed.

Lemma close_not_in_workers (e : Event) (qs : list (string * Queue)) :
  In e (List.map (fun p => EvRunnerClose (snd p)) qs) -> exists q, e = EvRunnerClose q.
Proof.
  intros Hin. apply in_map_iff in Hin as (p & <- & _). now exists (snd p).
Qed.

(** X6: when the listing succeeds, a pass closes the Runner of every
    registered queue whose last access is within ttl and evicts its id from
    the registry and from the last-access map, whatever the store holds. *)
Theorem Prune_closes_recently_touched (jobsSuffix : string) (NumCPU : nat)
    (g : remoteMongoQueueGroup) (w : World) (id : string) (q : Queue) (t : Z) :
  queues g !! id = Some q ->
  ttlMap g !! id = Some t ->
  clock w - t <= ttl g ->
  listFailure w = None ->
  In (EvRunnerClose q) (since w (snd (Prune jobsSuffix NumCPU g w)))
  /\ queues (snd (fst (Prune jobsSuffix NumCPU g w))) !! id = None
  /\ ttlMap (snd (fst (Prune jobsSuffix NumCPU g w))) !! id = None.
Proof.
  intros Hq Ht Hfresh Hlist.
  split; [| now apply (Prune_evicts_every_fresh_id jobsSuffix NumCPU g w id q t)].
  destruct (Prune_ok_pass jobsSuffix NumCPU g w Hlist)
    as (st & w' & evs & -> & Hsince & _ & Hch & _).
  cbn [snd]. rewrite Hsince.
  right. apply in_or_app. right.
  apply in_map_iff. exists (id, q). split; [reflexivity |].
  assert (Hnin : ~ In id (collsDeleteChan st)).
  { intros Hin. destruct (Hch id Hin) as (c & Hc & -> & _).
    exact (fresh_not_candidate jobsSuffix g w c t Ht Hfresh Hc). }
  unfold unchecked. apply filter_In. split.
  - apply list_elem_of_In, elem_of_map_to_list.
    now rewrite evictAll_lookup_notin.
  - cbn. unfold collsToCheck.
    rewrite (fresh_id_unchecked jobsSuffix g _ (clock w) t id (listed g w));
      [reflexivity | apply prefix_evictAll | exact Ht | exact Hfresh].
Qed.

Lemma Prune_closes_recently_touched_witness :
  let g := group (fun n => Ok (queue n)) {["alpha" := queue 7]} {["alpha" := 100]} in
  let w := world (100 + hour) [("svc.alpha.jobs", [pending])] in
  In (EvRunnerClose (queue 7)) (since w (snd (Prune ".jobs" 2 g w)))
  /\ queues (snd (fst (Prune ".jobs" 2 g w))) !! "alpha" = None
  /\ ttlMap (snd (fst (Prune ".jobs" 2 g w))) !! "alpha" = None.
Proof.
  apply (Prune_closes_recently_touched ".jobs" 2 _ _ "alpha" (queue 7) 100).
  - reflexivity.
  - reflexivity.
  - vm_compute. discriminate.
  - reflexivity.
Defined.

(** X7: when the listing succeeds, an id is still registered after a pass
    only if the store listed a collection carrying that id and the pass put
    it on collsToCheck, that is, only if the id had no last-access time or
    one older than ttl. *)
Theorem Prune_survivors_were_checked (jobsSuffix : string) (NumCPU : nat)
    (g : remoteMongoQueueGroup) (w : World) (id : string) (q : Queue) :
  listFailure w = None ->
  queues (snd (fst (Prune jobsSuffix NumCPU g w))) !! id = Some q ->
  exists coll,
    In coll (List.map fst (collections w))
    /\ regexMatch w ("^" ++ prefix g ++ ".*") coll = true
    /\ g_idFromCollection jobsSuffix g coll = id
    /\ match ttlMap g !! id with
       | None => True
       | Some t => ttl g < clock w - t
       end.
Proof.
  intros Hlist.
  destruct (Prune_ok_pass jobsSuffix NumCPU g w Hlist) as (st & w' & evs & -> & _).
  cbn [fst snd]. intros Hq.
  apply evictAll_lookup_Some in Hq as [Hq1 Hnin].
  destruct (checked jobsSuffix (evictAll (collsDeleteChan st) g)
              (collsToCheck jobsSuffix g w) id) eqn:Hchk.
  - unfold checked in Hchk. apply existsb_exists in Hchk as (coll & Hin & Heq).
    apply String.eqb_eq in Heq. unfold g_idFromCollection in Heq.
    rewrite prefix_evictAll in Heq.
    unfold collsToCheck in Hin. apply filter_In in Hin as [Hin Hneeds].
    unfold listed in Hin. apply filter_In in Hin as [Hin Hre].
    exists coll. split; [exact Hin |]. split; [exact Hre |].
    split; [now rewrite Heq |].
    unfold needsCheck, g_idFromCollection in Hneeds. rewrite <- Heq in Hneeds.
    destruct (ttlMap g !! id); [now apply Z.ltb_lt | exact I].
  - exfalso. apply Hnin. apply in_map_iff. exists (id, q). split; [reflexivity |].
    unfold unchecked. apply filter_In. split.
    + apply list_elem_of_In, elem_of_map_to_list. exact Hq1.
    + cbn. now rewrite Hchk.
Qed.

Lemma Prune_survivors_were_checked_witness :
  let g := group (fun n => Ok (queue n)) {["alpha" := queue 7]} {["alpha" := 100]} in
  let w := world (100 + 2 * hour) [("svc.alpha.jobs", [pending])] in
  exists coll,
    In coll (List.map fst (collections w))
    /\ regexMatch w ("^" ++ prefix g ++ ".*") coll = true
    /\ g_idFromCollection ".jobs" g coll = "alpha"
    /\ match ttlMap g !! "alpha" with
       | None => True
       | Some t => ttl g < clock w - t
       end.
Proof.
  apply (Prune_survivors_were_checked ".jobs" 2 _ _ "alpha" (queue 7)).
  - reflexivity.
  - vm_compute. reflexivity.
Defined.

(** X8: a collection whose id was touched within ttl is left alone by a
    pass: no CountDocuments and no Drop is issued for it, and the store holds
    it afterwards with the documents it had. *)
Theorem Prune_skips_recently_touched_collection (jobsSuffix : string) (NumCPU : nat)
    (g : remoteMongoQueueGroup) (w : World) (coll : string) (t : Z) :
  ttlMap g !! g_idFromCollection jobsSuffix g coll = Some t ->
  clock w - t <= ttl g ->
  let w' := snd (Prune jobsSuffix NumCPU g w) in
  (forall f, ~ In (EvCountDocuments coll f) (since w w'))
  /\ ~ In (EvDrop coll) (since w w')
  /\ documents coll (collections w') = documents coll (collections w)
  /\ exists_collection coll (collections w') = exists_collection coll (collections w).
Proof.
  intros Ht Hfresh. cbv zeta.
  destruct (listFailure w) as [f |] eqn:Hlist.
  - destruct (Prune_listing_fails jobsSuffix NumCPU g w f Hlist) as (err & ->).
    cbn [snd]. rewrite (since_app w _ [EvListCollections ("^" ++ prefix g ++ ".*")])
      by reflexivity.
    split; [intros f' [H | []]; discriminate |].
    split; [intros [H | []]; discriminate |]. now split.
  - destruct (Prune_ok_pass jobsSuffix NumCPU g w Hlist)
      as (st & w' & evs & -> & Hsince & Hev & _ & _ & Hdocs & _).
    cbn [snd]. rewrite Hsince.
    assert (Hnot : forall e, In e evs ->
                     (forall f, e <> EvCountDocuments coll f) /\ e <> EvDrop coll).
    { intros e He. rewrite Forall_forall in Hev.
      apply list_elem_of_In in He.
      destruct (Hev e He) as (c & Hc & Hkind).
      assert (Hne : c <> coll).
      { intros ->. exact (fresh_not_candidate jobsSuffix g w coll t Ht Hfresh Hc). }
      destruct Hkind as [[f' ->] | [-> | (q & -> & _)]].
      - split; [intros f0 [= E _]; contradiction | discriminate].
      - split; [discriminate | intros [= E]; contradiction].
      - split; [discriminate | discriminate]. }
    assert (Hdrop : ~ In (EvDrop coll) evs).
    { intros Hin. now destruct (Hnot _ Hin) as [_ H]. }
    split; [| split; [| now apply Hdocs]].
    + intros f' [H | H]; [discriminate |].
      apply in_app_or in H as [H | H].
      * destruct (Hnot _ H) as [Hc _]. now apply (Hc f').
      * apply close_not_in_workers in H as [q Hq]. discriminate.
    + intros [H | H]; [discriminate |].
      apply in_app_or in H as [H | H]; [contradiction |].
      apply close_not_in_workers in H as [q Hq]. discriminate.
Qed.

Lemma Prune_skips_recently_touched_collection_witness :
  let g := group (fun n => Ok (queue n)) {["alpha" := queue 7]} {["alpha" := 100]} in
  let w := world (100 + hour) [("svc.alpha.jobs", []); ("svc.old.jobs", [])] in
  let w' := snd (Prune ".jobs" 2 g w) in
  (forall f, ~ In (EvCountDocuments "svc.alpha.jobs" f) (since w w'))
  /\ ~ In (EvDrop "svc.alpha.jobs") (since w w')
  /\ documents "svc.alpha.jobs" (collections w')
     = documents "svc.alpha.jobs" (collections w)
  /\ exists_collection "svc.alpha.jobs" (collections w')
     = exists_collection "svc.alpha.jobs" (collections w).
Proof.
  apply (Prune_skips_recently_touched_collection ".jobs" 2 _ _ "svc.alpha.jobs" 100).
  - reflexivity.
  - vm_compute. discriminate.
Defined.

Lemma pruneWorkers_examines_all (jobsSuffix : string) (g : remoteMongoQueueGroup)
    (colls : list string) :
  forall (workers : nat) (st : PruneState) (w : World),
    (List.length colls < workers)%nat ->
    exists st' w' evs,
      pruneWorkers jobsSuffix g workers colls st w = (st', w')
      /\ log w' = (log w ++ evs)%list
      /\ forall c, In c colls -> In (EvCountDocuments c (recent g w)) evs.
Proof.
  induction colls as [| c rest IH]; intros workers st w Hlen.
  - exists st, w, []. rewrite app_nil_r. repeat split. intros c [].
  - destruct workers as [| fewer]; [cbn in Hlen; lia |].
    destruct (pruneCollection_step jobsSuffix g c st w)
      as (flow & st1 & w1 & evs1 & Hrun & Hso & Hlog & Hcount & _).
    destruct (IH (match flow with NextReceive => S fewer | Return => fewer end) st1 w1)
      as (st' & w' & evs2 & Hrun2 & Hlog2 & Hall).
    { cbn in Hlen. destruct flow; lia. }
    exists st', w', (evs1 ++ evs2)%list.
    split.
    { cbn [pruneWorkers]. rewrite (bind_run _ _ _ _ _ Hrun). now destruct flow. }
    split; [rewrite Hlog2, Hlog; now rewrite app_assoc |].
    intros c' [<- | Hin]; apply in_or_app; [now left | right].
    assert (Hrec : recent g w1 = recent g w).
    { unfold recent. destruct Hso as (-> & _). reflexivity. }
    rewrite <- Hrec. now apply Hall.
Qed.

(** X9: when the listing succeeds and the pass has more goroutines than
    collections to check, every collection on collsToCheck is examined (its
    first count is issued), and it is dropped if and only if both of its
    counts answer zero. *)
Theorem Prune_examines_all_given_goroutines (jobsSuffix : string) (NumCPU : nat)
    (g : remoteMongoQueueGroup) (w : World) (coll : string) :
  listFailure w = None ->
  (List.length (collsToCheck jobsSuffix g w) < NumCPU)%nat ->
  In coll (collsToCheck jobsSuffix g w) ->
  let w' := snd (Prune jobsSuffix NumCPU g w) in
  In (EvCountDocuments coll (recent g w)) (since w w')
  /\ (In (EvDrop coll) (since w w') <-> idle g w coll).
Proof.
  intros Hlist Hlen Hin. cbv zeta.
  assert (Hex : In (EvCountDocuments coll (recent g w))
                  (since w (snd (Prune jobsSuffix NumCPU g w)))).
  { destruct (Prune_anatomy jobsSuffix NumCPU g w Hlist)
      as (st & w2 & w3 & Hrun & -> & Hlog3 & _).
    destruct (pruneWorkers_examines_all jobsSuffix g (collsToCheck jobsSuffix g w) NumCPU
                {| catcher := []; collsDeleteChan := [] |}
                (set_log (log w ++ [EvListCollections ("^" ++ prefix g ++ ".*")])%list w)
                Hlen)
      as (st' & w2' & evs & Hrun' & Hlog & Hall).
    unfold collsToCheck, listed in Hrun'. rewrite Hrun in Hrun'.
    injection Hrun' as <- <-.
    cbn [snd].
    rewrite (since_app w w3
               (EvListCollections ("^" ++ prefix g ++ ".*") :: evs
                ++ List.map (fun p => EvRunnerClose (snd p))
                     (unchecked jobsSuffix (evictAll (collsDeleteChan st) g)
                        (collsToCheck jobsSuffix g w)))%list).
    - right. apply in_or_app. left. now apply Hall.
    - rewrite Hlog3, Hlog. cbn. now rewrite <- !app_assoc. }
  split; [exact Hex |].
  destruct (Prune_pass jobsSuffix NumCPU g w)
    as (err & g' & w1 & evs & Hrun & Hlog & _ & Hi & Hii & _).
  rewrite Hrun in *. cbn [snd] in *.
  rewrite (since_app w w1 evs Hlog) in *.
  split; [apply Hi | now apply Hii].
Qed.

Lemma Prune_examines_all_given_goroutines_witness :
  let g := group (fun n => Ok (queue n)) ∅ ∅ in
  let w := mixed (5 * hour) in
  let w' := snd (Prune ".jobs" 4 g w) in
  In (EvCountDocuments "svc.empty.jobs" (recent g w)) (since w w')
  /\ (In (EvDrop "svc.empty.jobs") (since w w') <-> idle g w "svc.empty.jobs").
Proof.
  apply (Prune_examines_all_given_goroutines ".jobs" 4).
  - reflexivity.
  - vm_compute. lia.
  - vm_compute. tauto.
Defined.






(* --------------------------------------------------------------------- *)
(* Construction: what a manager that was handed out holds                 *)
(* --------------------------------------------------------------------- *)

Lemma startProcessingRemoteQueue_frame (jobsSuffix : string)
    (g : remoteMongoQueueGroup) (coll : string) (w : World) :
  exists r w' evs,
    startProcessingRemoteQueue jobsSuffix g coll w = (r, w')
    /\ log w' = (log w ++ evs)%list
    /\ Forall start_event evs
    /\ collections w' = collections w
    /\ same_oracles w w'.
Proof.
  unfold startProcessingRemoteQueue, bind, emit, ret. cbn.
  destruct (constructor g (constructed w)) as [q | e]; cbn.
  - destruct (openDriverFailure w (trimJobsSuffix jobsSuffix coll)); cbn.
    + do 3 eexists. split; [reflexivity |]. cbn.
      split; [rewrite <- ?app_assoc; reflexivity |].
      split; [repeat constructor | repeat split].
    + destruct (SetDriver q); cbn.
      * do 3 eexists. split; [reflexivity |]. cbn.
        split; [rewrite <- ?app_assoc; reflexivity |].
        split; [repeat constructor | repeat split].
      * destruct (Start q); do 3 eexists; (split; [reflexivity |]); cbn;
          (split; [rewrite <- ?app_assoc; reflexivity |]);
          (split; [repeat constructor | repeat split]).
  - do 3 eexists. split; [reflexivity |]. cbn.
    split; [reflexivity |]. split; [repeat constructor | repeat split].
Qed.

Lemma same_config_refl (g : remoteMongoQueueGroup) : same_config g g.
Proof. repeat split. Qed.

Lemma same_config_trans (g1 g2 g3 : remoteMongoQueueGroup) :
  same_config g1 g2 -> same_config g2 g3 -> same_config g1 g3.
Proof.
  unfold same_config. intros (a1 & a2 & a3 & a4 & a5) (b1 & b2 & b3 & b4 & b5).
  repeat split; congruence.
Qed.

Lemma same_config_evictAll (ch : list string) :
  forall g, same_config g (evictAll ch g).
Proof.
  induction ch as [| x ch IH]; intros g; cbn; [apply same_config_refl |].
  eapply same_config_trans; [| apply IH]. repeat split.
Qed.

Lemma startExisting_registers (jobsSuffix : string) (colls : list string) :
  forall (g : remoteMongoQueueGroup) (c : Catcher) (w : World),
    exists c' g' w' evs,
      startExisting jobsSuffix g colls c w = ((c', g'), w')
      /\ log w' = (log w ++ evs)%list
      /\ Forall start_event evs
      /\ collections w' = collections w
      /\ same_oracles w w'
      /\ same_config g g'
      /\ (List.length c <= List.length c')%nat
      /\ (forall id, ~ In id (List.map (g_idFromCollection jobsSuffix g) colls) ->
            queues g' !! id = queues g !! id /\ ttlMap g' !! id = ttlMap g !! id)
      /\ (List.length c' = List.length c ->
          (forall id, is_Some (queues g' !! id)
                      <-> is_Some (queues g !! id)
                          \/ In id (List.map (g_idFromCollection jobsSuffix g) colls))
          /\ (forall id, In id (List.map (g_idFromCollection jobsSuffix g) colls) ->
                         ttlMap g' !! id = Some (clock w))).
Proof.
  induction colls as [| coll rest IH]; intros g c w.
  - exists c, g, w, []. rewrite app_nil_r. cbn.
    split; [reflexivity |]. split; [reflexivity |]. split; [constructor |].
    split; [reflexivity |]. split; [apply same_oracles_refl |].
    split; [apply same_config_refl |]. split; [lia |].
    split; [now split |]. intros _. split; [| intros id []].
    intros id. tauto.
  - destruct (startProcessingRemoteQueue_frame jobsSuffix g coll w)
      as (r & w1 & evs1 & Hrun & Hlog & Hev & Hcs & Hso).
    pose proof Hso as (Hclock & _).
    destruct r as [q | err].
    + set (g1 := register (g_idFromCollection jobsSuffix g coll) q (clock w1) g).
      destruct (IH g1 c w1)
        as (c' & g' & w' & evs2 & Hrun2 & Hlog2 & Hev2 & Hcs2 & Hso2 & Hcfg & Hlen & Hout & Hin).
      assert (Hids : List.map (g_idFromCollection jobsSuffix g1) rest
                     = List.map (g_idFromCollection jobsSuffix g) rest) by reflexivity.
      rewrite Hids in Hout, Hin.
      exists c', g', w', (evs1 ++ evs2)%list.
      split.
      { cbn [startExisting]. rewrite (bind_run _ _ _ _ _ Hrun). exact Hrun2. }
      split; [rewrite Hlog2, Hlog; now rewrite app_assoc |].
      split; [apply Forall_app; now split |].
      split; [congruence |].
      split; [eapply same_oracles_trans; eassumption |].
      split; [eapply same_config_trans; [| exact Hcfg]; repeat split |].
      split; [exact Hlen |].
      split.
      { intros id Hnot. cbn in Hnot.
        destruct (Hout id) as [Hq Ht]; [tauto |].
        rewrite Hq, Ht. subst g1. cbn.
        rewrite !lookup_insert_ne by tauto. now split. }
      intros Hsame. destruct (Hin Hsame) as [Hreg Hstamp]. split.
      * intros id. rewrite Hreg. subst g1. cbn.
        destruct (decide (g_idFromCollection jobsSuffix g coll = id)) as [E | Hne].
        -- rewrite E, lookup_insert_eq. split; [intros _; right; now left | eauto].
        -- rewrite lookup_insert_ne by exact Hne. tauto.
      * intros id [E | Hrest].
        -- destruct (in_dec string_dec id
                       (List.map (g_idFromCollection jobsSuffix g) rest)) as [Hyes | Hno].
           ++ rewrite (Hstamp id Hyes). now rewrite Hclock.
           ++ destruct (Hout id Hno) as [_ Ht]. rewrite Ht. subst g1. cbn.
              rewrite E, lookup_insert_eq. now rewrite Hclock.
        -- rewrite (Hstamp id Hrest). now rewrite Hclock.
    + destruct (IH g (Add (Wrap err "problem starting queue") c) w1)
        as (c' & g' & w' & evs2 & Hrun2 & Hlog2 & Hev2 & Hcs2 & Hso2 & Hcfg & Hlen & Hout & _).
      unfold Add in Hlen. rewrite length_app in Hlen. cbn in Hlen.
      exists c', g', w', (evs1 ++ evs2)%list.
      split.
      { cbn [startExisting]. rewrite (bind_run _ _ _ _ _ Hrun). exact Hrun2. }
      split; [rewrite Hlog2, Hlog; now rewrite app_assoc |].
      split; [apply Forall_app; now split |].
      split; [congruence |].
      split; [eapply same_oracles_trans; eassumption |].
      split; [exact Hcfg |].
      split; [lia |].
      split; [intros id Hnot; apply Hout; cbn in Hnot; tauto |].
      intros Hsame. lia.
Qed.

Lemma no_pruner_app (a b : list Event) :
  no_pruner a -> no_pruner b -> no_pruner (a ++ b).
Proof.
  intros Ha Hb f Hin. apply in_app_or in Hin as [H | H]; [exact (Ha f H) | exact (Hb f H)].
Qed.

Lemma start_events_no_pruner (evs : list Event) : Forall start_event evs -> no_pruner evs.
Proof.
  intros Hall f Hin. rewrite Forall_forall in Hall.
  apply list_elem_of_In in Hin. exact (Hall _ Hin).
Qed.

Lemma worker_events_no_pruner (jobsSuffix : string) (g : remoteMongoQueueGroup)
    (cs : list string) (evs : list Event) :
  Forall (worker_event jobsSuffix g cs) evs -> no_pruner evs.
Proof.
  intros Hall f Hin. rewrite Forall_forall in Hall.
  apply list_elem_of_In in Hin.
  destruct (Hall _ Hin) as (c & _ & [[f' H] | [H | (q & H & _)]]); discriminate.
Qed.

(* A pass of Prune seen from construction. *)
Lemma Prune_frame (jobsSuffix : string) (NumCPU : nat) (g : remoteMongoQueueGroup)
    (w : World) :
  exists perr g' w' evs,
    Prune jobsSuffix NumCPU g w = ((perr, g'), w')
    /\ log w' = (log w ++ evs)%list
    /\ no_pruner evs
    /\ same_oracles w w'
    /\ same_config g g'.
Proof.
  destruct (Prune_pass jobsSuffix NumCPU g w)
    as (perr & g' & w' & evs & Hrun & Hlog & [Hso _] & _).
  exists perr, g', w', evs.
  split; [exact Hrun |]. split; [exact Hlog |].
  pose proof (since_app w w' evs Hlog) as Hsince.
  destruct (listFailure w) as [f |] eqn:Hlist.
  - destruct (Prune_listing_fails jobsSuffix NumCPU g w f Hlist) as (err & Hfail).
    rewrite Hfail in Hrun. injection Hrun as <- <- <-.
    rewrite (since_app w _ [EvListCollections ("^" ++ prefix g ++ ".*")]) in Hsince
      by reflexivity.
    subst evs. split; [intros f' [H | []]; discriminate |].
    split; [exact Hso | apply same_config_refl].
  - destruct (Prune_ok_pass jobsSuffix NumCPU g w Hlist)
      as (st & w2 & evs2 & Hok & Hsince2 & Hev & _).
    rewrite Hok in Hrun. injection Hrun as <- <- <-.
    rewrite Hsince2 in Hsince. subst evs.
    split.
    + intros f' [H | H]; [discriminate |].
      apply in_app_or in H as [H | H].
      * exact (worker_events_no_pruner jobsSuffix g _ evs2 Hev f' H).
      * apply close_not_in_workers in H as [q Hq]. discriminate.
    + split; [exact Hso |].
      eapply same_config_trans; apply same_config_evictAll.
Qed.

Lemma Prune_keeps_empty (jobsSuffix : string) (NumCPU : nat) (g : remoteMongoQueueGroup)
    (w : World) :
  queues g = ∅ -> ttlMap g = ∅ ->
  queues (snd (fst (Prune jobsSuffix NumCPU g w))) = ∅
  /\ ttlMap (snd (fst (Prune jobsSuffix NumCPU g w))) = ∅.
Proof.
  intros Hq Ht. split; apply map_empty; intros id.
  - destruct (queues _ !! id) as [q |] eqn:E; [| reflexivity].
    apply (proj1 (Prune_lookup_sub jobsSuffix NumCPU g w id)) in E.
    rewrite Hq, lookup_empty in E. discriminate.
  - destruct (ttlMap _ !! id) as [t |] eqn:E; [| reflexivity].
    apply (proj2 (Prune_lookup_sub jobsSuffix NumCPU g w id)) in E.
    rewrite Ht, lookup_empty in E. discriminate.
Qed.

Lemma listed_same (g g' : remoteMongoQueueGroup) (w w' : World) :
  prefix g' = prefix g ->
  regexMatch w' = regexMatch w ->
  collections w' = collections w ->
  listed g' w' = listed g w.
Proof. intros Hp Hr Hc. unfold listed. now rewrite Hp, Hr, Hc. Qed.

(* Construction, laid out by its result. *)
Lemma NewMongoRemoteQueueGroup_anatomy (jobsSuffix : string) (NumCPU : nat)
    (validate : RemoteQueueGroupOptions -> option error)
    (opts : RemoteQueueGroupOptions) (mdbopts : MongoDBOptions) (w : World) :
  exists r w' evs,
    NewMongoRemoteQueueGroup jobsSuffix NumCPU validate opts mdbopts w = (r, w')
    /\ log w' = (log w ++ evs)%list
    /\ same_oracles w w'
    /\ match r with
       | Err _ => no_pruner evs
       | Ok g =>
           prefix g = Prefix opts /\ ttl g = TTL opts
           /\ pruneFrequency g = PruneFrequency opts
           /\ constructor g = Constructor opts
           /\ (forall id, is_Some (queues g !! id)
                          <-> In id (List.map (g_idFromCollection jobsSuffix g)
                                       (listed g w')))
           /\ (forall id, is_Some (queues g !! id) -> ttlMap g !! id = Some (clock w))
           /\ exists evs0,
                no_pruner evs0
                /\ evs = (evs0 ++ if pruning opts
                                  then [EvPrunerLoop (PruneFrequency opts)]
                                  else [])%list
       end.
Proof.
  unfold NewMongoRemoteQueueGroup.
  destruct (validate opts) as [v |].
  { exists (Err (Wrap v "invalid remote queue options")), w, [].
    rewrite app_nil_r. repeat split. intros f []. }
  destruct (String.eqb (DB mdbopts) "").
  { exists (Err (New "no database name specified")), w, [].
    rewrite app_nil_r. repeat split. intros f []. }
  destruct (String.eqb (URI mdbopts) "").
  { exists (Err (New "no mongodb uri specified")), w, [].
    rewrite app_nil_r. repeat split. intros f []. }
  set (g0 := {| constructor := Constructor opts; mongooptions := mdbopts;
                prefix := Prefix opts; pruneFrequency := PruneFrequency opts;
                queues := ∅; ttl := TTL opts; ttlMap := ∅ |}).
  assert (Hpre : exists perr g1 w1 evs1,
             (if pruning opts then Prune jobsSuffix NumCPU g0 else ret (None, g0)) w
             = ((perr, g1), w1)
             /\ log w1 = (log w ++ evs1)%list /\ no_pruner evs1
             /\ same_oracles w w1 /\ same_config g0 g1
             /\ queues g1 = ∅ /\ ttlMap g1 = ∅).
  { destruct (pruning opts).
    - destruct (Prune_frame jobsSuffix NumCPU g0 w)
        as (perr & g1 & w1 & evs1 & Hrun & Hlog & Hno & Hso & Hcfg).
      destruct (Prune_keeps_empty jobsSuffix NumCPU g0 w eq_refl eq_refl) as [Hq Ht].
      rewrite Hrun in Hq, Ht. cbn in Hq, Ht.
      exists perr, g1, w1, evs1. repeat split; try assumption; apply Hso || apply Hcfg.
    - exists None, g0, w, []. rewrite app_nil_r. repeat split. intros f []. }
  destruct Hpre as (perr & g1 & w1 & evs1 & Hrun1 & Hlog1 & Hno1 & Hso1 & Hcfg1 & Hq1 & Ht1).
  rewrite (bind_run _ _ _ _ _ Hrun1).
  destruct perr as [perr |].
  { exists (Err (Wrap perr "problem pruning queue")), w1, evs1.
    split; [reflexivity |]. split; [exact Hlog1 |]. split; [exact Hso1 | exact Hno1]. }
  unfold bind at 1.
  pose proof (getExistingCollections_world (prefix g1) w1) as Hw2.
  destruct (listFailure w1) as [lf |] eqn:Hlist.
  { destruct (getExistingCollections (prefix g1) w1) as [[colls | err] w2] eqn:Hget.
    - exfalso. revert Hget. unfold getExistingCollections, bind, emit. cbn.
      rewrite Hlist. destruct lf; discriminate.
    - cbn [snd] in Hw2. subst w2.
      do 3 eexists. split; [reflexivity |]. cbn.
      split; [rewrite Hlog1, <- app_assoc; reflexivity |].
      split; [exact Hso1 |].
      apply no_pruner_app; [exact Hno1 | intros f [H | []]; discriminate]. }
  rewrite (getExistingCollections_ok (prefix g1) w1 Hlist).
  fold (listed g1 w1).
  destruct (startExisting_registers jobsSuffix (listed g1 w1) g1 []
              (set_log (log w1 ++ [EvListCollections ("^" ++ prefix g1 ++ ".*")])%list w1))
    as (c' & g2 & w3 & evs3 & Hrun3 & Hlog3 & Hev3 & Hcs3 & Hso3 & Hcfg3 & _ & _ & Hin).
  rewrite (bind_run _ _ _ _ _ Hrun3).
  assert (Hso13 : same_oracles w w3).
  { eapply same_oracles_trans; [exact Hso1 |].
    eapply same_oracles_trans; [| exact Hso3]. repeat split. }
  assert (Hlog13 : log w3
                   = (log w ++ (evs1 ++ [EvListCollections ("^" ++ prefix g1 ++ ".*")])
                             ++ evs3)%list).
  { rewrite Hlog3. cbn. rewrite Hlog1. now rewrite !app_assoc. }
  assert (Hno13 : no_pruner ((evs1 ++ [EvListCollections ("^" ++ prefix g1 ++ ".*")])
                             ++ evs3)).
  { apply no_pruner_app; [| now apply start_events_no_pruner].
    apply no_pruner_app; [exact Hno1 | intros f [H | []]; discriminate]. }
  destruct c' as [| e0 c'].
  - cbn [Resolve].
    destruct (Hin eq_refl) as [Hreg Hstamp].
    destruct Hcfg1 as (Hc1 & _ & Hp1 & Hf1 & Httl1).
    destruct Hcfg3 as (Hc3 & _ & Hp3 & Hf3 & Httl3).
    assert (Hids : forall w',
               regexMatch w' = regexMatch w1 -> collections w' = collections w1 ->
               List.map (g_idFromCollection jobsSuffix g2) (listed g2 w')
               = List.map (g_idFromCollection jobsSuffix g1) (listed g1 w1)).
    { intros w' Hr Hc. rewrite (listed_same g1 g2 w1 w' Hp3 Hr Hc).
      apply map_ext. intros a. unfold g_idFromCollection. now rewrite Hp3. }
    assert (Hfacts : forall w',
               regexMatch w' = regexMatch w1 -> collections w' = collections w1 ->
               prefix g2 = Prefix opts /\ ttl g2 = TTL opts
               /\ pruneFrequency g2 = PruneFrequency opts
               /\ constructor g2 = Constructor opts
               /\ (forall id, is_Some (queues g2 !! id)
                              <-> In id (List.map (g_idFromCollection jobsSuffix g2)
                                           (listed g2 w')))
               /\ (forall id, is_Some (queues g2 !! id) ->
                              ttlMap g2 !! id = Some (clock w))).
    { intros w' Hr Hc. rewrite (Hids w' Hr Hc).
      split; [now rewrite Hp3, Hp1 |]. split; [now rewrite Httl3, Httl1 |].
      split; [now rewrite Hf3, Hf1 |]. split; [now rewrite Hc3, Hc1 |].
      split.
      - intros id. rewrite Hreg, Hq1, lookup_empty. split; [| tauto].
        intros [[x Hx] | H]; [discriminate | exact H].
      - intros id Hsome. apply Hreg in Hsome as [Hsome | Hsome].
        + rewrite Hq1, lookup_empty in Hsome. destruct Hsome; discriminate.
        + rewrite (Hstamp id Hsome). cbn. now destruct Hso1 as (-> & _). }
    destruct Hso3 as (Hk3 & Hr3 & Hrest3). cbn in Hr3, Hcs3.
    destruct (pruning opts).
    + exists (Ok g2), (set_log (log w3 ++ [EvPrunerLoop (PruneFrequency opts)])%list w3),
        (((evs1 ++ [EvListCollections ("^" ++ prefix g1 ++ ".*")]) ++ evs3)
         ++ [EvPrunerLoop (PruneFrequency opts)])%list.
      split; [reflexivity |]. cbn.
      split; [rewrite Hlog13; now rewrite <- !app_assoc |].
      split; [exact Hso13 |].
      destruct (Hfacts (set_log (log w3 ++ [EvPrunerLoop (PruneFrequency opts)])%list w3)
                  Hr3 Hcs3) as (F1 & F2 & F3 & F4 & F5 & F6).
      repeat (split; [assumption |]).
      eexists. split; [exact Hno13 | reflexivity].
    + exists (Ok g2), w3,
        ((evs1 ++ [EvListCollections ("^" ++ prefix g1 ++ ".*")]) ++ evs3)%list.
      split; [reflexivity |].
      split; [exact Hlog13 |].
      split; [exact Hso13 |].
      destruct (Hfacts w3 Hr3 Hcs3) as (F1 & F2 & F3 & F4 & F5 & F6).
      repeat (split; [assumption |]).
      eexists. split; [exact Hno13 | now rewrite app_nil_r].
  - exists (Err (Multi (e0 :: c'))), w3,
      ((evs1 ++ [EvListCollections ("^" ++ prefix g1 ++ ".*")]) ++ evs3)%list.
    split; [reflexivity |]. split; [exact Hlog13 |]. split; [exact Hso13 | exact Hno13].
Qed.

(** X11: a manager that construction hands out has registered exactly the
    ids of the collections the store lists under its prefix when
    construction returns, each stamped with the time of construction, and
    carries the prefix, ttl, prune frequency and constructor of its
    options. *)
Theorem NewMongoRemoteQueueGroup_registers_listed (jobsSuffix : string) (NumCPU : nat)
    (validate : RemoteQueueGroupOptions -> option error)
    (opts : RemoteQueueGroupOptions) (mdbopts : MongoDBOptions) (w w' : World)
    (g : remoteMongoQueueGroup) :
  NewMongoRemoteQueueGroup jobsSuffix NumCPU validate opts mdbopts w = (Ok g, w') ->
  (forall id, is_Some (queues g !! id)
              <-> In id (List.map (g_idFromCollection jobsSuffix g) (listed g w')))
  /\ (forall id, is_Some (queues g !! id) -> ttlMap g !! id = Some (clock w))
  /\ prefix g = Prefix opts
  /\ ttl g = TTL opts
  /\ pruneFrequency g = PruneFrequency opts
  /\ constructor g = Constructor opts.
Proof.
  intros Hnew.
  destruct (NewMongoRemoteQueueGroup_anatomy jobsSuffix NumCPU validate opts mdbopts w)
    as (r & w1 & evs & Hrun & _ & _ & Hr).
  rewrite Hnew in Hrun. injection Hrun as <- <-.
  destruct Hr as (H1 & H2 & H3 & H4 & H5 & H6 & _).
  repeat split; try assumption; now apply H5.
Qed.

Lemma NewMongoRemoteQueueGroup_registers_listed_witness :
  exists g w',
    NewMongoRemoteQueueGroup ".jobs" 4 (fun _ => None)
      {| Constructor := fun n => Ok (queue n); Prefix := "svc.";
         PruneFrequency := hour; TTL := hour |}
      {| DB := "amboy"; URI := "mongodb://localhost:27017" |}
      (mixed (5 * hour)) = (Ok g, w')
    /\ (forall id, is_Some (queues g !! id)
                   <-> In id (List.map (g_idFromCollection ".jobs" g) (listed g w')))
    /\ (forall id, is_Some (queues g !! id) -> ttlMap g !! id = Some (5 * hour))
    /\ prefix g = "svc.".
Proof.
  assert (Hrun : exists g w',
             NewMongoRemoteQueueGroup ".jobs" 4 (fun _ => None)
               {| Constructor := fun n => Ok (queue n); Prefix := "svc.";
                  PruneFrequency := hour; TTL := hour |}
               {| DB := "amboy"; URI := "mongodb://localhost:27017" |}
               (mixed (5 * hour)) = (Ok g, w'))
    by (do 2 eexists; vm_compute; reflexivity).
  destruct Hrun as (g & w' & Hrun).
  destruct (NewMongoRemoteQueueGroup_registers_listed _ _ _ _ _ _ _ _ Hrun)
    as (H1 & H2 & H3 & _).
  exists g, w'. auto.
Defined.

(** X12: construction starts the pruner loop exactly when it hands out a
    manager and both PruneFrequency and TTL are positive, with the
    configured frequency; a construction that answers an error never
    starts it. *)
Theorem NewMongoRemoteQueueGroup_pruner_loop (jobsSuffix : string) (NumCPU : nat)
    (validate : RemoteQueueGroupOptions -> option error)
    (opts : RemoteQueueGroupOptions) (mdbopts : MongoDBOptions) (w : World) (f : Z) :
  In (EvPrunerLoop f)
     (since w (snd (NewMongoRemoteQueueGroup jobsSuffix NumCPU validate opts mdbopts w)))
  <-> (exists g,
         fst (NewMongoRemoteQueueGroup jobsSuffix NumCPU validate opts mdbopts w) = Ok g)
      /\ pruning opts = true
      /\ f = PruneFrequency opts.
Proof.
  destruct (NewMongoRemoteQueueGroup_anatomy jobsSuffix NumCPU validate opts mdbopts w)
    as (r & w1 & evs & -> & Hlog & _ & Hr).
  cbn [fst snd]. rewrite (since_app w w1 evs Hlog).
  destruct r as [g | err].
  - destruct Hr as (_ & _ & _ & _ & _ & _ & evs0 & Hno & ->).
    destruct (pruning opts).
    + split.
      * intros Hin. apply in_app_or in Hin as [Hin | [[= <-] | []]];
          [now apply Hno in Hin |].
        split; [now exists g | now split].
      * intros (_ & _ & ->). apply in_or_app. right. now left.
    + rewrite app_nil_r. split.
      * intros Hin. now apply Hno in Hin.
      * intros (_ & Hp & _). discriminate.
  - split.
    + intros Hin. now apply Hr in Hin.
    + intros ((g & Hg) & _). discriminate.
Qed.

(** X13: starting a queue calls the constructor once and first, opens the
    driver only on the collection name without the queue suffix, and starts
    a queue only after the constructor answered it, the driver was opened
    and SetDriver raised no error; the queue it answers has been started
    without error. *)
Theorem startProcessingRemoteQueue_call_order (jobsSuffix : string)
    (g : remoteMongoQueueGroup) (coll : string) (w : World) :
  exists evs,
    since w (snd (startProcessingRemoteQueue jobsSuffix g coll w)) = EvConstructor :: evs
    /\ ~ In EvConstructor evs
    /\ constructed (snd (startProcessingRemoteQueue jobsSuffix g coll w))
       = S (constructed w)
    /\ (forall c, In (EvOpenNewMongoDriver c) evs -> c = trimJobsSuffix jobsSuffix coll)
    /\ (forall q, In (EvStart q) evs ->
          constructor g (constructed w) = Ok q
          /\ openDriverFailure w (trimJobsSuffix jobsSuffix coll) = None
          /\ SetDriver q = None
          /\ In (EvSetDriver q) evs)
    /\ (forall q, fst (startProcessingRemoteQueue jobsSuffix g coll w) = Ok q ->
          In (EvStart q) evs /\ Start q = None).
Proof.
  unfold startProcessingRemoteQueue, bind, emit, ret. cbn.
  destruct (constructor g (constructed w)) as [q | e] eqn:Hc; cbn;
    [destruct (openDriverFailure w (trimJobsSuffix jobsSuffix coll)) eqn:Ho; cbn;
     [| destruct (SetDriver q) eqn:Hs; cbn; [| destruct (Start q) eqn:Ht; cbn]] |];
    (eexists; split;
     [apply since_app; cbn; rewrite <- ?app_assoc; reflexivity |]; cbn;
     intuition (try discriminate; try congruence)).
Qed.

(* --------------------------------------------------------------------- *)
(* Names and ids                                                          *)
(* --------------------------------------------------------------------- *)

(** X14: collectionFromID gives different ids different collection
    names. *)
Theorem collectionFromID_injective (jobsSuffix prefix id1 id2 : string) :
  id1 <> id2 ->
  collectionFromID jobsSuffix prefix id1 <> collectionFromID jobsSuffix prefix id2.
Proof.
  unfold collectionFromID, addJobsSuffix. intros Hne H. apply Hne.
  apply (f_equal (fun s => strings.TrimSuffix s jobsSuffix)) in H.
  rewrite !TrimSuffix_app in H.
  apply (f_equal (fun s => strings.TrimPrefix s prefix)) in H.
  now rewrite !TrimPrefix_app in H.
Qed.

Lemma collectionFromID_injective_witness :
  collectionFromID ".jobs" "svc." "alpha" <> collectionFromID ".jobs" "svc." "alph".
Proof.
  apply (collectionFromID_injective ".jobs" "svc." "alpha" "alph"). discriminate.
Defined.

(** X15: idFromCollection does not ask for the queue suffix: a name made
    of the prefix and an id that does not end in the suffix carries that id,
    the same id as the collection collectionFromID makes for it. *)
Theorem idFromCollection_without_suffix (jobsSuffix prefix id : string) :
  strings.HasSuffix id jobsSuffix = false ->
  idFromCollection jobsSuffix prefix (prefix ++ id) = id
  /\ idFromCollection jobsSuffix prefix (prefix ++ id)
     = idFromCollection jobsSuffix prefix (collectionFromID jobsSuffix prefix id).
Proof.
  intros Hno.
  assert (H1 : idFromCollection jobsSuffix prefix (prefix ++ id) = id).
  { unfold idFromCollection, trimJobsSuffix. rewrite TrimPrefix_app.
    unfold strings.TrimSuffix. now rewrite Hno. }
  split; [exact H1 |]. rewrite H1.
  unfold idFromCollection, collectionFromID, addJobsSuffix, trimJobsSuffix.
  rewrite app_string_assoc, TrimPrefix_app. now rewrite TrimSuffix_app.
Qed.

Lemma idFromCollection_without_suffix_witness :
  idFromCollection ".jobs" "svc." "svc.alpha" = "alpha"
  /\ idFromCollection ".jobs" "svc." "svc.alpha"
     = idFromCollection ".jobs" "svc." (collectionFromID ".jobs" "svc." "alpha").
Proof.
  apply (idFromCollection_without_suffix ".jobs" "svc." "alpha"). reflexivity.
Defined.

(* --------------------------------------------------------------------- *)
(* The last two properties on concrete runs                               *)
(* --------------------------------------------------------------------- *)

Lemma NewMongoRemoteQueueGroup_pruner_loop_witness :
  In (EvPrunerLoop hour)
     (since (mixed (5 * hour))
        (snd (NewMongoRemoteQueueGroup ".jobs" 4 (fun _ => None)
                {| Constructor := fun n => Ok (queue n); Prefix := "svc.";
                   PruneFrequency := hour; TTL := hour |}
                {| DB := "amboy"; URI := "mongodb://localhost:27017" |}
                (mixed (5 * hour)))))
  /\ ~ In (EvPrunerLoop hour)
       (since (mixed (5 * hour))
          (snd (NewMongoRemoteQueueGroup ".jobs" 4 (fun _ => None)
                  {| Constructor := fun n => Err (External "constructor");
                     Prefix := "svc."; PruneFrequency := hour; TTL := hour |}
                  {| DB := "amboy"; URI := "mongodb://localhost:27017" |}
                  (mixed (5 * hour))))).
Proof.
  split.
  - apply (NewMongoRemoteQueueGroup_pruner_loop ".jobs" 4 (fun _ => None)).
    split; [eexists; vm_compute; reflexivity | split; reflexivity].
  - intros Hin.
    apply (NewMongoRemoteQueueGroup_pruner_loop ".jobs" 4 (fun _ => None)) in Hin
      as ((g & Hg) & _).
    vm_compute in Hg. discriminate.
Defined.

Lemma startProcessingRemoteQueue_call_order_witness :
  exists evs,
    since (world 50 [])
      (snd (startProcessingRemoteQueue ".jobs" (group (fun n => Ok (queue n)) ∅ ∅)
              "svc.alpha.jobs" (world 50 [])))
    = EvConstructor :: evs
    /\ In (EvStart (queue 0)) evs
    /\ In (EvSetDriver (queue 0)) evs
    /\ forall c, In (EvOpenNewMongoDriver c) evs -> c = "svc.alpha".
Proof.
  destruct (startProcessingRemoteQueue_call_order ".jobs"
              (group (fun n => Ok (queue n)) ∅ ∅) "svc.alpha.jobs" (world 50 []))
    as (evs & Hsince & _ & _ & Hopen & Hstart & Hok).
  exists evs. split; [exact Hsince |].
  destruct (Hok (queue 0) eq_refl) as [Hin _].
  split; [exact Hin |].
  split; [now destruct (Hstart (queue 0) Hin) as (_ & _ & _ & H) | exact Hopen].
Defined.

(* --------------------------------------------------------------------- *)
(* An idle collection that no goroutine receives                          *)
(* --------------------------------------------------------------------- *)

(** C2, evaluated on the code: the store lists a collection with a pending
    job, one with a job completed half an hour ago and an empty one; the
    registry is empty, ttl is one hour, and the pass has two goroutines. All
    three collections are on collsToCheck and both counts of the empty one
    are zero, yet it is neither counted nor dropped: each goroutine returned
    from its loop on the nonzero count of the collection it had received,
    and the empty collection stayed on the channel. The same pass over the
    empty collection alone drops it. *)
Theorem Prune_leaves_idle_candidate :
  let g := group (fun n => Ok (queue n)) ∅ ∅ in
  let w := mixed (5 * hour) in
  let r := Prune ".jobs" 2 g w in
  let alone := Prune ".jobs" 2 g (world (5 * hour) [("svc.empty.jobs", [])]) in
  collsToCheck ".jobs" g w = ["svc.busy.jobs"; "svc.done.jobs"; "svc.empty.jobs"]
  /\ documents "svc.empty.jobs" (collections w) = []
  /\ count w "svc.empty.jobs" (RecentlyCompleted (clock w - ttl g)) = Ok 0
  /\ count w "svc.empty.jobs" NotCompleted = Ok 0
  /\ fst (fst r) = None
  /\ since w (snd r)
     = [EvListCollections "^svc..*";
        EvCountDocuments "svc.busy.jobs" (RecentlyCompleted (5 * hour - hour));
        EvCountDocuments "svc.busy.jobs" NotCompleted;
        EvCountDocuments "svc.done.jobs" (RecentlyCompleted (5 * hour - hour))]
  /\ ~ In (EvDrop "svc.empty.jobs") (since w (snd r))
  /\ collections (snd r) = collections w
  /\ In (EvDrop "svc.empty.jobs") (since (world (5 * hour) []) (snd alone))
  /\ collections (snd alone) = [].
Proof.
  cbv zeta. repeat split; try (vm_compute; reflexivity).
  - vm_compute. intros [H | [H | [H | [H | []]]]]; discriminate.
  - vm_compute. tauto.
Qed.
